(** * InteractiveWater: the ripple kernel of the water overlay

    A shallow embedding of the pixel kernel of the [InteractiveWater]
    component: the amplitude grids ([Int16Array]), the interaction effect
    that deposits a drop, the fused physics and refraction loop of
    [renderloop], and the colour parser [hexToRgb].

    JavaScript numbers are IEEE-754 binary64 values.  Wherever the source
    performs arithmetic that can round (the product with [damping], the
    products with [0.05] and [shimmer], the colour blending) the embedding
    uses the binary64 operations of [SpecFloat].  Index arithmetic and the
    sums of grid cells are exact in binary64 (all operands are integers far
    below 2^53) and are written over [Z]. *)

From Stdlib Require Import ZArith Lia Bool String Ascii.
From Stdlib Require Import Floats.SpecFloat.
From stdpp Require Import base list.

Local Open Scope Z_scope.

(** ** JavaScript numbers *)

Module JsNum.

(** binary64: 53 bits of precision, infinities at exponent 1024. *)
Definition prec : Z := 53.
Definition emax : Z := 1024.

Definition number := spec_float.

Definition mul : number -> number -> number := SFmul prec emax.
Definition div : number -> number -> number := SFdiv prec emax.
Definition add : number -> number -> number := SFadd prec emax.
Definition sub : number -> number -> number := SFsub prec emax.

(** [a < b] and [a > b]; both are false when an operand is NaN. *)
Definition lt (a b : number) : bool := SFltb a b.
Definition gt (a b : number) : bool := SFltb b a.

(** The number denoted by an integer (correctly rounded; exact below 2^53). *)
Definition of_Z (z : Z) : number := binary_normalize prec emax z 0 false.

(** [Math.min] on two numbers: NaN if either is NaN. *)
Definition min (a b : number) : number :=
  match SFcompare a b with
  | None => S754_nan
  | Some Gt => b
  | Some _ => a
  end.

Definition is_finite (a : number) : bool :=
  match a with
  | S754_zero _ | S754_finite _ _ _ => true
  | _ => false
  end.

(** Integer-valued results: what [Math.floor] returns. *)
Inductive integral :=
| INaN
| IInf (negative : bool)
| IInt (z : Z).

(** [Math.floor]: the largest integer not above the argument.  For a finite
    [± m * 2^e] this is an arithmetic shift of the signed mantissa. *)
Definition floor (a : number) : integral :=
  match a with
  | S754_nan => INaN
  | S754_infinity s => IInf s
  | S754_zero _ => IInt 0
  | S754_finite s m e => IInt (Z.shiftl (cond_Zopp s (Zpos m)) e)
  end.

(** Reduction of an integer to [bits] bits, two's complement. *)
Definition wrap (bits : Z) (z : Z) : Z :=
  (z + 2 ^ (bits - 1)) mod 2 ^ bits - 2 ^ (bits - 1).

Definition wrap16 : Z -> Z := wrap 16.

(** ToInt32 on an integer, as applied to the operand of [>>]. *)
Definition to_int32 : Z -> Z := wrap 32.

(** ToInt16, the conversion of a store into an [Int16Array]:
    NaN and the infinities become 0, integers are reduced modulo 2^16. *)
Definition to_int16 (v : integral) : Z :=
  match v with
  | IInt z => wrap16 z
  | _ => 0
  end.

(** ToUint8Clamp, the conversion of a store into a [Uint8ClampedArray]:
    NaN becomes 0, the value is clamped to [0, 255] and rounded to the
    nearest integer, ties to even. *)
Definition to_uint8_clamp (a : number) : Z :=
  match a with
  | S754_nan => 0
  | S754_zero _ => 0
  | S754_infinity s => if s then 0 else 255
  | S754_finite true _ _ => 0
  | S754_finite false m e =>
      if 0 <=? e then Z.min 255 (Z.shiftl (Zpos m) e)
      else
        let d := 2 ^ (- e) in
        let q := Zpos m / d in
        let r := Zpos m mod d in
        let n := match 2 * r ?= d with
                 | Lt => q
                 | Gt => q + 1
                 | Eq => if Z.even q then q else q + 1
                 end in
        Z.min 255 n
  end.

(** Literals of the source. *)
Definition c0_05 : number := Eval vm_compute in div (of_Z 1) (of_Z 20).
Definition c0_5 : number := Eval vm_compute in div (of_Z 1) (of_Z 2).
Definition c1 : number := Eval vm_compute in of_Z 1.
Definition c20 : number := Eval vm_compute in of_Z 20.
Definition c255 : number := Eval vm_compute in of_Z 255.
Definition c0_96 : number := Eval vm_compute in div (of_Z 96) (of_Z 100).
Definition c0_99 : number := Eval vm_compute in div (of_Z 99) (of_Z 100).
Definition c5 : number := Eval vm_compute in of_Z 5.

End JsNum.

(** ** Typed arrays *)

Module TypedArray.

(** [a[k]]: [None] is JavaScript's [undefined], read outside the array. *)
Definition get (a : list Z) (k : Z) : option Z :=
  if k <? 0 then None else a !! Z.to_nat k.

(** [a[k] = v] for an already converted [v]; a store outside the array is
    silently dropped. *)
Definition set (a : list Z) (k : Z) (v : Z) : list Z :=
  if k <? 0 then a else <[Z.to_nat k := v]> a.

(** [new Int16Array(n)]: [n] zeros. *)
Definition zeros (n : Z) : list Z := replicate (Z.to_nat n) 0.

End TypedArray.

Import JsNum TypedArray.

(** ** The component *)

(** [RippleConfig], the fields the kernel reads. *)
Record RippleConfig := {
  damping : number;
  shimmer : number;
  baseColor : string;
  highlightColor : string
}.

(** The [interactionPoint] prop. *)
Record InteractionPoint := {
  px : number;
  py : number;
  active : bool
}.

Definition radius : Z := 4.
Definition strength : Z := 600.

(** *** Interaction effect (lines 47-68) *)

(** The body of the two nested loops at column [i] of row [j]. *)
Definition inject_cell (w h x y : Z) (buffer1 : list Z) (j i : Z) : list Z :=
  if (0 <=? i) && (i <? w) && (0 <=? j) && (j <? h) then
    if (i - x) * (i - x) + (j - y) * (j - y) <? radius * radius
    then set buffer1 (j * w + i) (wrap16 strength)
    else buffer1
  else buffer1.

Definition inject_row (w h x y : Z) (buffer1 : list Z) (j : Z) : list Z :=
  foldl (fun b i => inject_cell w h x y b j i) buffer1 (seqZ (x - radius) (2 * radius)).

Definition inject_at (w h x y : Z) (buffer1 : list Z) : list Z :=
  foldl (inject_row w h x y) buffer1 (seqZ (y - radius) (2 * radius)).

(** The effect itself.  When a product is NaN or infinite the loop bounds
    are NaN or infinite and no iteration runs.  The loop counters are
    integers here; in the source they are binary64 numbers, which count
    exactly while the centre is below 2^53 in magnitude, and a centre that
    far from the grid stores nothing in either reading. *)
Definition inject (w h : Z) (p : InteractionPoint) (buffer1 : list Z) : list Z :=
  if active p && (0 <? w) then
    match floor (mul (px p) (of_Z w)), floor (mul (py p) (of_Z h)) with
    | IInt x, IInt y => inject_at w h x y buffer1
    | _, _ => buffer1
    end
  else buffer1.

(** *** Ripple physics (lines 126-127) *)

(** [(buffer1[i-1] + buffer1[i+1] + buffer1[i-w] + buffer1[i+w]) >> 1].
    A read outside the array makes the sum NaN, which [>>] turns into 0. *)
Definition halfSum (buffer1 : list Z) (w i : Z) : Z :=
  match get buffer1 (i - 1), get buffer1 (i + 1),
        get buffer1 (i - w), get buffer1 (i + w) with
  | Some a, Some b, Some c, Some d => Z.shiftr (to_int32 (a + b + c + d)) 1
  | _, _, _, _ => 0
  end.

(** Line 126.  When [buffer2[i]] is outside the array the store is too. *)
Definition physics1 (w : Z) (buffer1 buffer2 : list Z) (i : Z) : list Z :=
  match get buffer2 i with
  | Some p => set buffer2 i (wrap16 (halfSum buffer1 w i - p))
  | None => buffer2
  end.

(** [Math.floor(v * damping)] stored into an [Int16Array]. *)
Definition damp (d : number) (v : Z) : Z :=
  to_int16 (floor (mul (of_Z v) d)).

(** Line 127. *)
Definition physics2 (d : number) (buffer2 : list Z) (i : Z) : list Z :=
  match get buffer2 i with
  | Some v => set buffer2 i (damp d v)
  | None => buffer2
  end.

Definition physics (d : number) (w : Z) (buffer1 buffer2 : list Z) (i : Z) : list Z :=
  physics2 d (physics1 w buffer1 buffer2 i) i.

(** The indices visited by [for (let i = w + 1; i < w * h - w - 1; i++)]. *)
Definition loop_indices (w h : Z) : list Z :=
  seqZ (w + 1) (w * h - w - 1 - (w + 1)).

(** The physics of one frame on its own: the loop with the rendering
    statements left out. *)
Definition propagate (d : number) (w h : Z) (buffer1 buffer2 : list Z) : list Z :=
  foldl (physics d w buffer1) buffer2 (loop_indices w h).

(** *** Colour parsing (lines 112-119) *)

Module Color.

Record rgb := { r : Z; g : Z; b : Z }.

Definition black : rgb := {| r := 0; g := 0; b := 0 |}.

(** One character of the class [[a-f\d]] under the [i] flag, with its
    value as a hexadecimal digit. *)
Definition hex_digit (c : ascii) : option Z :=
  let n := Z.of_N (N_of_ascii c) in
  if (48 <=? n) && (n <=? 57) then Some (n - 48)
  else if (97 <=? n) && (n <=? 102) then Some (n - 87)
  else if (65 <=? n) && (n <=? 70) then Some (n - 55)
  else None.

(** [parseInt] of a two-digit group in base 16. *)
Definition parse_pair (c1 c2 : ascii) : option Z :=
  match hex_digit c1, hex_digit c2 with
  | Some hi, Some lo => Some (16 * hi + lo)
  | _, _ => None
  end.

(** The three groups followed by the end of the input. *)
Definition groups (s : string) : option rgb :=
  match s with
  | String c1 (String c2 (String c3 (String c4 (String c5 (String c6 EmptyString))))) =>
      match parse_pair c1 c2, parse_pair c3 c4, parse_pair c5 c6 with
      | Some r0, Some g0, Some b0 => Some {| r := r0; g := g0; b := b0 |}
      | _, _, _ => None
      end
  | _ => None
  end.

(** The match of [/^#?([a-f\d]{2})([a-f\d]{2})([a-f\d]{2})$/i].  The
    optional [#] is tried first; when the rest fails the matcher retries
    without consuming it. *)
Definition exec (hex : string) : option rgb :=
  match hex with
  | String "#"%char rest =>
      match groups rest with
      | Some c => Some c
      | None => groups hex
      end
  | _ => groups hex
  end.

Definition hexToRgb (hex : string) : rgb :=
  match exec hex with
  | Some c => c
  | None => black
  end.

End Color.

(** *** Refraction and shading (lines 129-183) *)

(** [x + d] for an integer [x] and a floored [d].  The sum, a comparison
    with an integer bound and the clamping below give in binary64 the same
    result as over the integers: rounding is monotone and the bounds are
    integers below 2^53. *)
Definition int_add (x : Z) (d : integral) : integral :=
  match d with
  | IInt z => IInt (x + z)
  | other => other
  end.

Definition int_ltb (a : integral) (k : Z) : bool :=
  match a with
  | INaN => false
  | IInf s => s
  | IInt z => z <? k
  end.

Definition int_geb (a : integral) (k : Z) : bool :=
  match a with
  | INaN => false
  | IInf s => negb s
  | IInt z => k <=? z
  end.

(** [if (s < 0) s = 0; if (s >= n) s = n - 1;] *)
Definition clamp (s : integral) (n : Z) : integral :=
  let s1 := if int_ltb s 0 then IInt 0 else s in
  if int_geb s1 n then IInt (n - 1) else s1.

(** [Math.abs(a) + Math.abs(b)] *)
Definition abs_sum (a b : integral) : number :=
  match a, b with
  | INaN, _ | _, INaN => S754_nan
  | IInf _, _ | _, IInf _ => S754_infinity false
  | IInt x, IInt y => of_Z (Z.abs x + Z.abs y)
  end.

(** The [const] bindings of one iteration of the pixel loop. *)
Record Locals := {
  xOffset : option Z;
  yOffset : option Z;
  distortionX : integral;
  distortionY : integral;
  sourceX : integral;
  sourceY : integral;
  targetIdx : Z;
  sourceIdx : option Z;
  tintFactor : number;
  shading : option Z
}.

(** The difference of two cells; [None] is NaN, from a read outside. *)
Definition cell_diff (a b : option Z) : option Z :=
  match a, b with
  | Some u, Some v => Some (u - v)
  | _, _ => None
  end.

(** [Math.floor(offset * 0.05 * shimmer)] *)
Definition distortion (sh : number) (offset : option Z) : integral :=
  match offset with
  | Some z => floor (mul (mul (of_Z z) c0_05) sh)
  | None => INaN
  end.

Definition locals (sh : number) (w h : Z) (buffer2 : list Z) (i : Z) : Locals :=
  let xo := cell_diff (get buffer2 (i - 1)) (get buffer2 (i + 1)) in
  let yo := cell_diff (get buffer2 (i - w)) (get buffer2 (i + w)) in
  let dX := distortion sh xo in
  let dY := distortion sh yo in
  let y := i / w in
  let x := Z.rem i w in
  let sX := clamp (int_add x dX) w in
  let sY := clamp (int_add y dY) h in
  {| xOffset := xo;
     yOffset := yo;
     distortionX := dX;
     distortionY := dY;
     sourceX := sX;
     sourceY := sY;
     targetIdx := i * 4;
     sourceIdx := match sY, sX with
                  | IInt b, IInt a => Some ((b * w + a) * 4)
                  | _, _ => None
                  end;
     tintFactor := min c1 (div (abs_sum dX dY) c20);
     shading := cell_diff xo yo |}.

(** A texture read as a number: NaN when the index is NaN or outside. *)
Definition texel (texture : list Z) (idx : option Z) (k : Z) : number :=
  match idx with
  | Some s => match get texture (s + k) with
              | Some v => of_Z v
              | None => S754_nan
              end
  | None => S754_nan
  end.

(** [output[k] = v] *)
Definition put (output : list Z) (k : Z) (v : number) : list Z :=
  set output k (to_uint8_clamp v).

(** [output[k] = f(output[k])] *)
Definition update (output : list Z) (k : Z) (f : number -> number) : list Z :=
  match get output k with
  | Some cur => put output k (f (of_Z cur))
  | None => output
  end.

(** Lines 160-163. *)
Definition copy_texel (texture : list Z) (l : Locals) (output : list Z) : list Z :=
  let t := targetIdx l in
  let o0 := put output t (texel texture (sourceIdx l) 0) in
  let o1 := put o0 (t + 1) (texel texture (sourceIdx l) 1) in
  let o2 := put o1 (t + 2) (texel texture (sourceIdx l) 2) in
  put o2 (t + 3) c255.

(** Lines 170-175. *)
Definition specular (highlight : Color.rgb) (l : Locals) (output : list Z) : list Z :=
  match shading l with
  | Some s =>
      if 10 <? s then
        let intensity := of_Z (Z.min 255 (s * 2)) in
        let boost c := fun cur => min c255 (add cur (mul intensity (div (of_Z c) c255))) in
        let t := targetIdx l in
        let o0 := update output t (boost (Color.r highlight)) in
        let o1 := update o0 (t + 1) (boost (Color.g highlight)) in
        update o1 (t + 2) (boost (Color.b highlight))
      else output
  | None => output
  end.

(** Lines 179-183. *)
Definition tint (base : Color.rgb) (l : Locals) (output : list Z) : list Z :=
  if gt (tintFactor l) c0_05 then
    let k := mul (tintFactor l) c0_5 in
    let blend c := fun cur => add (mul cur (sub c1 k)) (mul (of_Z c) k) in
    let t := targetIdx l in
    let o0 := update output t (blend (Color.r base)) in
    let o1 := update o0 (t + 1) (blend (Color.g base)) in
    update o1 (t + 2) (blend (Color.b base))
  else output.

(** The arrays the pixel loop works on. *)
Record Buffers := {
  buffer1 : list Z;
  buffer2 : list Z;
  output : list Z
}.

(** The rendering statements of one iteration. *)
Definition render_pixel (cfg : RippleConfig) (w h : Z) (texture : list Z)
    (st : Buffers) (i : Z) : Buffers :=
  let base := Color.hexToRgb (baseColor cfg) in
  let highlight := Color.hexToRgb (highlightColor cfg) in
  let l := locals (shimmer cfg) w h (buffer2 st) i in
  {| buffer1 := buffer1 st;
     buffer2 := buffer2 st;
     output := tint base l (specular highlight l (copy_texel texture l (output st))) |}.

(** The physics statements of one iteration. *)
Definition physics_step (cfg : RippleConfig) (w : Z) (st : Buffers) (i : Z) : Buffers :=
  {| buffer1 := buffer1 st;
     buffer2 := physics (damping cfg) w (buffer1 st) (buffer2 st) i;
     output := output st |}.

(** One iteration of the loop of lines 124-184. *)
Definition pixel (cfg : RippleConfig) (w h : Z) (texture : list Z)
    (st : Buffers) (i : Z) : Buffers :=
  render_pixel cfg w h texture (physics_step cfg w st i) i.

Definition pixel_loop (cfg : RippleConfig) (w h : Z) (texture : list Z)
    (st : Buffers) : Buffers :=
  foldl (pixel cfg w h texture) st (loop_indices w h).

(** The buffers as iteration [i] renders from them: every earlier index has
    been through its iteration and index [i] through its physics. *)
Definition rendering_state (cfg : RippleConfig) (w h : Z) (texture : list Z)
    (st : Buffers) (i : Z) : Buffers :=
  physics_step cfg w
    (foldl (pixel cfg w h texture) st (seqZ (w + 1) (i - (w + 1)))) i.

(** The bindings of iteration [i] within a frame. *)
Definition locals_at (cfg : RippleConfig) (w h : Z) (texture : list Z)
    (st : Buffers) (i : Z) : Locals :=
  locals (shimmer cfg) w h (buffer2 (rendering_state cfg w h texture st i)) i.

(** *** The frame (lines 72-194) and the resize handler (lines 20-38) *)

Record ImageData := { width : Z; height : Z; data : list Z }.

(** [ctx.createImageData(w, h)]: transparent black. *)
Definition createImageData (w h : Z) : ImageData :=
  {| width := w; height := h; data := zeros (4 * w * h) |}.

(** The refs of the component. *)
Record Component := {
  dimensionsRef : Z * Z;
  buffer1Ref : list Z;
  buffer2Ref : list Z;
  imageDataBufferRef : option ImageData
}.

(** [handleResize] for a canvas whose scaled size is [w] by [h]. *)
Definition handleResize (w h : Z) (c : Component) : Component :=
  {| dimensionsRef := (w, h);
     buffer1Ref := zeros (w * h);
     buffer2Ref := zeros (w * h);
     imageDataBufferRef := imageDataBufferRef c |}.

(** The interaction effect on the component. *)
Definition interact (p : InteractionPoint) (c : Component) : Component :=
  let '(w, h) := dimensionsRef c in
  {| dimensionsRef := dimensionsRef c;
     buffer1Ref := inject w h p (buffer1Ref c);
     buffer2Ref := buffer2Ref c;
     imageDataBufferRef := imageDataBufferRef c |}.

(** One frame; [texture] is what [getImageData] returned for it. *)
Definition renderloop (cfg : RippleConfig) (texture : list Z) (c : Component) : Component :=
  let '(w, h) := dimensionsRef c in
  if (w =? 0) || (h =? 0) then c
  else
    let outputImage :=
      match imageDataBufferRef c with
      | Some im => if (width im =? w) && (height im =? h) then im else createImageData w h
      | None => createImageData w h
      end in
    let st := pixel_loop cfg w h texture
                {| buffer1 := buffer1Ref c;
                   buffer2 := buffer2Ref c;
                   output := data outputImage |} in
    {| dimensionsRef := (w, h);
       buffer1Ref := buffer2 st;
       buffer2Ref := buffer1 st;
       imageDataBufferRef :=
         Some {| width := width outputImage;
                 height := height outputImage;
                 data := output st |} |}.

(** Successive frames, one per texture. *)
Definition frames (cfg : RippleConfig) (textures : list (list Z)) (c : Component) : Component :=
  foldl (fun c texture => renderloop cfg texture c) c textures.

(** The grids alone: one propagation and the swap, repeated. *)
Definition swap_step (d : number) (w h : Z) (bs : list Z * list Z) : list Z * list Z :=
  (propagate d w h (fst bs) (snd bs), fst bs).

Definition propagations (d : number) (w h : Z) (n : nat) (bs : list Z * list Z) : list Z * list Z :=
  Nat.iter n (swap_step d w h) bs.

(** ** The specification's wording, for comparison *)

Module Spec.

(** The border ring as the data model words it: the first row, the last
    row, and the first and last column of every row. *)
Definition border_ring (w h i : Z) : bool :=
  (i <? w) || (w * h - w <=? i) || (i mod w =? 0) || (i mod w =? w - 1).

(** An interior index: not on the 1-pixel border on any side. *)
Definition interior (w h i : Z) : Prop :=
  1 <= i mod w <= w - 2 /\ 1 <= i / w <= h - 2.

(** The update with the halving truncated toward zero and nothing reduced
    to 16 bits. *)
Definition next_truncating (d : number) (a b c e p : Z) : integral :=
  floor (mul (of_Z (Z.quot (a + b + c + e) 2 - p)) d).

(** The update with the halving floored and nothing reduced to 16 bits. *)
Definition next_unbounded (d : number) (a b c e p : Z) : integral :=
  floor (mul (of_Z ((a + b + c + e) / 2 - p)) d).

(** A 6-hex-digit colour: six characters among [0-9], [a-f], [A-F],
    with or without a leading [#]. *)
Definition hex_char (c : ascii) : bool :=
  existsb (Ascii.eqb c) (list_ascii_of_string "0123456789abcdefABCDEF").

Definition hex_colour (s : string) : bool :=
  let digits := match s with
                | String "#"%char rest => rest
                | _ => s
                end in
  (Z.of_nat (String.length digits) =? 6)
  && forallb hex_char (list_ascii_of_string digits).

End Spec.

(** ** Predicates used in the statements *)

(** The value of a cell, 0 where there is none. *)
Definition cell (a : list Z) (k : Z) : Z := default 0 (get a k).

Definition int16 (v : Z) : Prop := -32768 <= v <= 32767.
Definition uint8 (v : Z) : Prop := 0 <= v <= 255.

Definition size (a : list Z) : Z := Z.of_nat (length a).

(** The indices the pixel loop visits. *)
Definition visited (w h i : Z) : Prop := w + 1 <= i < w * h - w - 1.

(** What the two physics assignments leave in [buffer2[i]] when it held [p]. *)
Definition next_cell (d : number) (w : Z) (buffer1 : list Z) (i p : Z) : Z :=
  damp d (wrap16 (halfSum buffer1 w i - p)).

(** [DEFAULT_CONFIG]: damping 0.96, shimmer 5. *)
Definition DEFAULT_CONFIG : RippleConfig :=
  {| damping := c0_96;
     shimmer := c5;
     baseColor := "#000000";
     highlightColor := "#00d2ff" |}.

(** The component before the first resize. *)
Definition mounted : Component :=
  {| dimensionsRef := (0, 0);
     buffer1Ref := zeros 0;
     buffer2Ref := zeros 0;
     imageDataBufferRef := None |}.

(** Whether the drop centred at [(x, y)] stores into index [k]: some
    iteration [(j, i)] of the nested loops passes both tests and addresses
    [k]. *)
Definition drop_stores (w h x y k j i : Z) : bool :=
  (0 <=? i) && (i <? w) && (0 <=? j) && (j <? h)
  && ((i - x) * (i - x) + (j - y) * (j - y) <? radius * radius)
  && (k =? j * w + i).

Definition drop_covers (w h x y k : Z) : bool :=
  existsb (fun j => existsb (drop_stores w h x y k j) (seqZ (x - radius) (2 * radius)))
          (seqZ (y - radius) (2 * radius)).

(** The component after a resize to 4 by 4 and a drop at the centre, which
    covers the whole grid. *)
Definition drenched : Component :=
  interact {| px := c0_5; py := c0_5; active := true |} (handleResize 4 4 mounted).

(** The four channels of pixel [i]. *)
Definition channels (i k : Z) : Prop := 4 * i <= k < 4 * i + 4.

(** Agreement of two output buffers on the channels of pixel [i]. *)
Definition agree (i : Z) (o1 o2 : list Z) : Prop :=
  forall k, channels i k -> get o1 k = get o2 k.

(** The range a floored number may lie in: between 0 and [V] on the side
    its sign [s] says. *)
Definition within (s : bool) (V : Z) (r : integral) : Prop :=
  match r with
  | IInt z => if s then - V <= z <= 0 else 0 <= z <= V
  | _ => True
  end.

(** A number strictly between 0 and 1. *)
Definition fraction (d : number) : Prop :=
  valid_binary prec emax d = true /\ lt (S754_zero false) d = true /\ lt d c1 = true.

(** The component after a resize to 3 by 3 and a drop at the centre, which
    covers the whole grid, border included. *)
Definition soaked : Component :=
  interact {| px := c0_5; py := c0_5; active := true |} (handleResize 3 3 mounted).

(** ** The life of the component *)

(** What happens to the mounted component: the window is resized to a canvas
    of [w] by [h] grid cells, the interaction point changes, or the browser
    runs an animation frame with the current theme and video texture. *)
Inductive Event :=
| Resize (w h : Z)
| Interact (p : InteractionPoint)
| Frame (cfg : RippleConfig) (texture : list Z).

Definition handle (c : Component) (e : Event) : Component :=
  match e with
  | Resize w h => handleResize w h c
  | Interact p => interact p c
  | Frame cfg texture => renderloop cfg texture c
  end.

Definition run (events : list Event) (c : Component) : Component :=
  foldl handle c events.

(** A resize to a canvas size: the scaled width and height are floors of
    nonnegative numbers. *)
Definition canvas_sized (e : Event) : Prop :=
  match e with
  | Resize w h => 0 <= w /\ 0 <= h
  | _ => True
  end.

Definition is_frame (e : Event) : Prop :=
  match e with
  | Frame _ _ => True
  | _ => False
  end.

(** Both grids have one cell per pixel and hold 16-bit values. *)
Definition grids_ok (c : Component) : Prop :=
  let w := fst (dimensionsRef c) in
  let h := snd (dimensionsRef c) in
  0 <= w /\ 0 <= h /\
  size (buffer1Ref c) = w * h /\ size (buffer2Ref c) = w * h /\
  Forall int16 (buffer1Ref c) /\ Forall int16 (buffer2Ref c).

(** An output image as the frames leave it: four bytes per pixel, every
    pixel the loop visits opaque, every other pixel transparent black. *)
Definition image_ok (im : ImageData) : Prop :=
  0 <= width im /\ 0 <= height im /\
  size (data im) = 4 * width im * height im /\
  Forall uint8 (data im) /\
  (forall i, visited (width im) (height im) i -> get (data im) (4 * i + 3) = Some 255) /\
  (forall k, 0 <= k < size (data im) ->
     (forall i, visited (width im) (height im) i -> ~ channels i k) ->
     get (data im) k = Some 0).

Definition output_ok (c : Component) : Prop :=
  forall im, imageDataBufferRef c = Some im -> image_ok im.

(** * Properties *)

(** ** Typed arrays *)

Section ArrayFacts.

Implicit Types (a : list Z) (k j v : Z).

Lemma size_set a k v : size (set a k v) = size a.
Proof.
  unfold size, set. destruct (k <? 0); [done|]. by rewrite length_insert.
Qed.

Lemma get_set_ne a k j v : k <> j -> get (set a k v) j = get a j.
Proof.
  intros Hne. unfold get, set.
  destruct (Z.ltb_spec j 0) as [|Hj]; [done|].
  destruct (Z.ltb_spec k 0) as [|Hk]; [done|].
  apply list_lookup_insert_ne. lia.
Qed.

Lemma get_set_eq a k v : get (set a k v) k = (fun _ => v) <$> get a k.
Proof.
  unfold get, set. destruct (Z.ltb_spec k 0) as [|Hk]; [done|].
  destruct (a !! Z.to_nat k) as [u|] eqn:E; simpl.
  - apply list_lookup_insert_eq. by eapply lookup_lt_Some.
  - rewrite list_insert_ge; [done|]. by apply lookup_ge_None.
Qed.

Lemma get_Some a k : 0 <= k < size a -> exists v, get a k = Some v.
Proof.
  intros [Hk Hlt]. unfold get, size in *.
  destruct (Z.ltb_spec k 0); [lia|].
  destruct (lookup_lt_is_Some_2 a (Z.to_nat k)) as [v Hv]; [lia|]. eauto.
Qed.

Lemma get_lt a k v : get a k = Some v -> 0 <= k < size a.
Proof.
  unfold get, size. destruct (Z.ltb_spec k 0); [done|].
  intros Hv%lookup_lt_Some. lia.
Qed.

Lemma get_cell a k : 0 <= k < size a -> get a k = Some (cell a k).
Proof. intros H. unfold cell. by destruct (get_Some a k H) as [v ->]. Qed.

Lemma get_ext a1 a2 : (forall k, get a1 k = get a2 k) -> a1 = a2.
Proof.
  intros H. apply list_eq. intros n.
  specialize (H (Z.of_nat n)). unfold get in H.
  destruct (Z.ltb_spec (Z.of_nat n) 0); [lia|].
  by rewrite Nat2Z.id in H.
Qed.

Lemma size_zeros n : 0 <= n -> size (zeros n) = n.
Proof. intros H. unfold size, zeros. rewrite length_replicate. lia. Qed.

Lemma get_zeros n k : 0 <= k < n -> get (zeros n) k = Some 0.
Proof.
  intros H. unfold get, zeros. destruct (Z.ltb_spec k 0); [lia|].
  apply lookup_replicate_2. lia.
Qed.

Lemma get_zeros_inv n k v : get (zeros n) k = Some v -> v = 0.
Proof.
  unfold get, zeros. destruct (k <? 0); [done|].
  by intros [-> _]%lookup_replicate.
Qed.

End ArrayFacts.

(** ** Conversions *)

Lemma wrap16_int16 z : int16 (wrap16 z).
Proof.
  unfold int16, wrap16, wrap. change (2 ^ (16 - 1)) with 32768.
  change (2 ^ 16) with 65536.
  pose proof (Z.mod_pos_bound (z + 32768) 65536). lia.
Qed.

Lemma wrap16_congruent z : (wrap16 z - z) mod 65536 = 0.
Proof.
  unfold wrap16, wrap. change (2 ^ (16 - 1)) with 32768.
  change (2 ^ 16) with 65536.
  rewrite (Z.mod_eq (z + 32768) 65536) by lia.
  replace (z + 32768 - 65536 * ((z + 32768) / 65536) - 32768 - z)
    with ((- ((z + 32768) / 65536)) * 65536) by lia.
  apply Z.mod_mul. lia.
Qed.

Lemma wrap16_id z : int16 z -> wrap16 z = z.
Proof.
  unfold int16, wrap16, wrap. change (2 ^ (16 - 1)) with 32768.
  change (2 ^ 16) with 65536. intros H.
  rewrite Z.mod_small; lia.
Qed.

Lemma to_int32_id z : - 2 ^ 31 <= z < 2 ^ 31 -> to_int32 z = z.
Proof.
  unfold to_int32, wrap. change (2 ^ (32 - 1)) with 2147483648.
  change (2 ^ 32) with 4294967296. change (2 ^ 31) with 2147483648. intros H.
  rewrite Z.mod_small; lia.
Qed.

Lemma to_int16_int16 v : int16 (to_int16 v).
Proof.
  destruct v; simpl; try (unfold int16; lia). apply wrap16_int16.
Qed.

Lemma damp_int16 d v : int16 (damp d v).
Proof. apply to_int16_int16. Qed.

(** ** The physics of one index and of the whole loop *)

Section Physics.

Variable d : number.
Variable w : Z.
Variable b1 : list Z.

Lemma size_physics b2 i : size (physics d w b1 b2 i) = size b2.
Proof.
  unfold physics, physics2, physics1.
  destruct (get b2 i) as [p|] eqn:E.
  - rewrite get_set_eq, E. simpl. by rewrite !size_set.
  - by rewrite E.
Qed.

Lemma get_physics_ne b2 i k : k <> i -> get (physics d w b1 b2 i) k = get b2 k.
Proof.
  intros Hne. unfold physics, physics2, physics1.
  destruct (get b2 i) as [p|] eqn:E.
  - rewrite get_set_eq, E. simpl. rewrite !get_set_ne by done. done.
  - by rewrite E.
Qed.

Lemma get_physics_eq b2 i :
  get (physics d w b1 b2 i) i = next_cell d w b1 i <$> get b2 i.
Proof.
  unfold physics, physics2, physics1, next_cell.
  destruct (get b2 i) as [p|] eqn:E.
  - rewrite get_set_eq, E. simpl. rewrite !get_set_eq, E. done.
  - by rewrite E.
Qed.

(** A run of the physics over distinct indices rewrites exactly those. *)
Lemma get_foldl_physics l : NoDup l -> forall b2 k,
  get (foldl (physics d w b1) b2 l) k =
    if decide (k ∈ l) then next_cell d w b1 k <$> get b2 k else get b2 k.
Proof.
  induction 1 as [|i l Hi Hl IH]; intros b2 k; cbn [foldl].
  - case_decide as Hin; [|done]. by apply elem_of_nil in Hin.
  - rewrite IH. destruct (decide (k = i)) as [->|Hne].
    + rewrite (decide_False (P := i ∈ l)) by done.
      rewrite (decide_True (P := i ∈ i :: l)) by apply list_elem_of_here.
      apply get_physics_eq.
    + rewrite get_physics_ne by done.
      repeat case_decide; try done; exfalso.
      * rewrite elem_of_cons in *. tauto.
      * rewrite elem_of_cons in *. tauto.
Qed.

Lemma size_foldl_physics l b2 : size (foldl (physics d w b1) b2 l) = size b2.
Proof.
  revert b2. induction l as [|i l IH]; intros b2; simpl; [done|].
  by rewrite IH, size_physics.
Qed.

End Physics.

Lemma elem_of_loop_indices w h i : i ∈ loop_indices w h <-> visited w h i.
Proof. unfold loop_indices, visited. rewrite elem_of_seqZ. lia. Qed.

Lemma get_propagate d w h b1 b2 k :
  get (propagate d w h b1 b2) k =
    if decide (visited w h k) then next_cell d w b1 k <$> get b2 k else get b2 k.
Proof.
  unfold propagate. rewrite get_foldl_physics by apply NoDup_seqZ.
  destruct (decide (k ∈ loop_indices w h)) as [Hin|Hnin];
    rewrite elem_of_loop_indices in *.
  - by rewrite decide_True.
  - by rewrite decide_False.
Qed.

Lemma size_propagate d w h b1 b2 : size (propagate d w h b1 b2) = size b2.
Proof. apply size_foldl_physics. Qed.

(** ** The fused loop and the grids *)

Section PixelLoop.

Variable cfg : RippleConfig.
Variables w h : Z.
Variable texture : list Z.

Lemma buffer1_pixel st i : buffer1 (pixel cfg w h texture st i) = buffer1 st.
Proof. reflexivity. Qed.

Lemma buffer2_pixel st i :
  buffer2 (pixel cfg w h texture st i) =
    physics (damping cfg) w (buffer1 st) (buffer2 st) i.
Proof. reflexivity. Qed.

Lemma buffer1_foldl_pixel l st :
  buffer1 (foldl (pixel cfg w h texture) st l) = buffer1 st.
Proof.
  revert st. induction l as [|i l IH]; intros st; cbn [foldl]; [done|].
  by rewrite IH.
Qed.

(** The rendering statements do not feed back into the grid: the loop
    leaves in [buffer2] what the physics alone leaves there. *)
Lemma buffer2_foldl_pixel l st :
  buffer2 (foldl (pixel cfg w h texture) st l) =
    foldl (physics (damping cfg) w (buffer1 st)) (buffer2 st) l.
Proof.
  revert st. induction l as [|i l IH]; intros st; cbn [foldl]; [done|].
  by rewrite IH.
Qed.

Lemma buffer2_pixel_loop st :
  buffer2 (pixel_loop cfg w h texture st) =
    propagate (damping cfg) w h (buffer1 st) (buffer2 st).
Proof. apply buffer2_foldl_pixel. Qed.

Lemma buffer1_pixel_loop st : buffer1 (pixel_loop cfg w h texture st) = buffer1 st.
Proof. apply buffer1_foldl_pixel. Qed.

End PixelLoop.

(** A frame propagates and swaps, unless a dimension is zero. *)
Lemma renderloop_buffers cfg texture c w h :
  dimensionsRef c = (w, h) -> w <> 0 -> h <> 0 ->
  let c' := renderloop cfg texture c in
  dimensionsRef c' = (w, h) /\
  (buffer1Ref c', buffer2Ref c') =
    swap_step (damping cfg) w h (buffer1Ref c, buffer2Ref c).
Proof.
  intros Hd Hw Hh. unfold renderloop. rewrite Hd.
  destruct (Z.eqb_spec w 0); [done|]. destruct (Z.eqb_spec h 0); [done|].
  cbn [orb dimensionsRef buffer1Ref buffer2Ref]. split; [done|].
  unfold swap_step. cbn [fst snd].
  by rewrite buffer2_pixel_loop, buffer1_pixel_loop.
Qed.

Lemma frames_buffers cfg textures : forall c w h,
  dimensionsRef c = (w, h) -> w <> 0 -> h <> 0 ->
  let c' := frames cfg textures c in
  dimensionsRef c' = (w, h) /\
  (buffer1Ref c', buffer2Ref c') =
    propagations (damping cfg) w h (length textures) (buffer1Ref c, buffer2Ref c).
Proof.
  unfold frames.
  induction textures as [|t ts IH] using rev_ind; intros c w h Hd Hw Hh.
  - done.
  - rewrite foldl_app. cbn [foldl].
    destruct (IH c w h Hd Hw Hh) as [Hd' Hb].
    destruct (renderloop_buffers cfg t _ w h Hd' Hw Hh) as [Hd'' Hb''].
    split; [done|]. cbv zeta in Hb''. rewrite Hb'', Hb.
    rewrite length_app. cbn [length]. rewrite Nat.add_1_r. done.
Qed.

(** Cells the loop does not visit, over any number of swaps. *)
Lemma propagations_unvisited d w h i : ~ visited w h i ->
  forall n b1 b2,
    let bs := propagations d w h n (b1, b2) in
    if Nat.even n
    then get (fst bs) i = get b1 i /\ get (snd bs) i = get b2 i
    else get (fst bs) i = get b2 i /\ get (snd bs) i = get b1 i.
Proof.
  intros Hi n b1 b2. cbv zeta. unfold propagations.
  induction n as [|n IH]; [done|].
  rewrite Nat.even_succ, <- Nat.negb_even, Nat.iter_succ.
  set (bs := Nat.iter n (swap_step d w h) (b1, b2)) in *.
  assert (Hfst : get (fst (swap_step d w h bs)) i = get (snd bs) i).
  { unfold swap_step. cbn [fst snd]. by rewrite get_propagate, decide_False. }
  change (snd (swap_step d w h bs)) with (fst bs). rewrite Hfst.
  destruct (Nat.even n); cbn [negb]; tauto.
Qed.

(** ** What one propagation computes *)

Lemma interior_visited w h i : 0 < w -> Spec.interior w h i -> visited w h i.
Proof.
  intros Hw [Hx Hy]. unfold visited.
  pose proof (Z.div_mod i w ltac:(lia)) as Hi. nia.
Qed.

Lemma halfSum_int16 b1 w i :
  0 < w -> Forall int16 b1 ->
  0 <= i - w -> i + w < size b1 ->
  halfSum b1 w i =
    (cell b1 (i - 1) + cell b1 (i + 1) + cell b1 (i - w) + cell b1 (i + w)) / 2.
Proof.
  intros Hw Hall Hlo Hhi. unfold halfSum.
  assert (Hc : forall k, 0 <= k < size b1 ->
             get b1 k = Some (cell b1 k) /\ int16 (cell b1 k)).
  { intros k Hk. pose proof (get_cell b1 k Hk) as Hg. split; [done|].
    unfold get in Hg. destruct (k <? 0); [done|].
    by eapply (proj1 (Forall_lookup _ _) Hall). }
  destruct (Hc (i - 1)) as [-> ?]; [lia|].
  destruct (Hc (i + 1)) as [-> ?]; [lia|].
  destruct (Hc (i - w)) as [-> ?]; [lia|].
  destruct (Hc (i + w)) as [-> ?]; [lia|].
  unfold int16 in *. rewrite to_int32_id by lia.
  by rewrite Z.shiftr_div_pow2.
Qed.

(** C1 (amended): every interior index is visited by the loop, and at every
    visited index [i] one propagation leaves in the grid
    [int16 (floor (int16 (floor ((cur[i-1] + cur[i+1] + cur[i-w] + cur[i+w]) / 2)
    - prev[i]) * damping))]: the halving rounds toward minus infinity, the
    product with [damping] is a binary64 product, and each of the two
    assignments reduces its value to a signed 16-bit integer. *)
Theorem propagation_step cfg w h texture st i :
  0 < w ->
  size (buffer1 st) = w * h -> size (buffer2 st) = w * h ->
  Forall int16 (buffer1 st) ->
  let cur := buffer1 st in
  let prev := buffer2 st in
  let first :=
    wrap16 ((cell cur (i - 1) + cell cur (i + 1) + cell cur (i - w) + cell cur (i + w)) / 2
            - cell prev i) in
  (Spec.interior w h i -> visited w h i) /\
  (visited w h i ->
   get (buffer2 (pixel_loop cfg w h texture st)) i =
     Some (to_int16 (floor (mul (of_Z first) (damping cfg))))).
Proof.
  intros Hw H1 H2 Hall. cbv zeta. split; [by apply interior_visited|].
  intros Hi. pose proof Hi as [Hlo Hhi].
  rewrite buffer2_pixel_loop, get_propagate, decide_True by done.
  rewrite (get_cell (buffer2 st) i) by lia. cbn [fmap option_fmap option_map].
  unfold next_cell, damp. rewrite halfSum_int16 by (try done; lia). done.
Qed.

(** C2 (amended): a cell whose index is below [w + 1] or at least
    [w * h - w - 1] (the first row, the last row, the first cell of the second
    row and the last cell of the row before the last) is never written by the
    pixel loop: after any number of frames each of the two arrays still holds
    there what it held before, the arrays having changed roles once per
    frame. *)
Theorem unvisited_cells_are_fixed cfg textures c w h i :
  dimensionsRef c = (w, h) -> 0 < w -> 0 < h ->
  i < w + 1 \/ w * h - w - 1 <= i ->
  let c' := frames cfg textures c in
  if Nat.even (length textures)
  then get (buffer1Ref c') i = get (buffer1Ref c) i /\
       get (buffer2Ref c') i = get (buffer2Ref c) i
  else get (buffer1Ref c') i = get (buffer2Ref c) i /\
       get (buffer2Ref c') i = get (buffer1Ref c) i.
Proof.
  intros Hd Hw Hh Hi. cbv zeta.
  destruct (frames_buffers cfg textures c w h Hd) as [_ Hb]; [lia..|].
  cbv zeta in Hb.
  assert (Hnv : ~ visited w h i) by (unfold visited; lia).
  pose proof (propagations_unvisited (damping cfg) w h i Hnv
                (length textures) (buffer1Ref c) (buffer2Ref c)) as Hp.
  cbv zeta in Hp. rewrite <- Hb in Hp. exact Hp.
Qed.

Lemma propagation_step_witness :
  let st := {| buffer1 := [0; -201; 0; 0; 0; 0; 0; 0; 0];
               buffer2 := zeros 9;
               output := zeros 36 |} in
  get (buffer2 (pixel_loop DEFAULT_CONFIG 3 3 (zeros 36) st)) 4 = Some (-97).
Proof.
  intros st.
  refine (proj2 (propagation_step DEFAULT_CONFIG 3 3 (zeros 36) st 4 _ _ _ _) _).
  - lia.
  - reflexivity.
  - reflexivity.
  - repeat constructor; unfold int16; lia.
  - unfold visited; lia.
Defined.

(** C1 as worded fails on the code.  With the halving truncated toward zero
    the centre of a 3 by 3 grid whose upper neighbour holds -201 would become
    [floor(-100 * 0.5) = -50]; the loop stores -51.  With the halving floored
    but nothing reduced to 16 bits, four neighbours at 32767 around a previous
    value of -32768 would give [floor(98302 * 0.5) = 49151]; the loop stores
    16383. *)
Lemma propagation_step_as_worded_fails :
  (let st := {| buffer1 := [0; -201; 0; 0; 0; 0; 0; 0; 0];
                buffer2 := zeros 9;
                output := zeros 36 |} in
   let cfg := {| damping := c0_5; shimmer := c5;
                 baseColor := "#000000"; highlightColor := "#00d2ff" |} in
   Spec.interior 3 3 4 /\
   get (buffer2 (pixel_loop cfg 3 3 (zeros 36) st)) 4 = Some (-51) /\
   Spec.next_truncating c0_5 (cell (buffer1 st) 3) (cell (buffer1 st) 5)
     (cell (buffer1 st) 1) (cell (buffer1 st) 7) (cell (buffer2 st) 4) = IInt (-50))
  /\
  (let st := {| buffer1 := [0; 32767; 0; 32767; 0; 32767; 0; 32767; 0];
                buffer2 := [0; 0; 0; 0; -32768; 0; 0; 0; 0];
                output := zeros 36 |} in
   let cfg := {| damping := c0_5; shimmer := c5;
                 baseColor := "#000000"; highlightColor := "#00d2ff" |} in
   Spec.interior 3 3 4 /\
   get (buffer2 (pixel_loop cfg 3 3 (zeros 36) st)) 4 = Some 16383 /\
   Spec.next_unbounded c0_5 (cell (buffer1 st) 3) (cell (buffer1 st) 5)
     (cell (buffer1 st) 1) (cell (buffer1 st) 7) (cell (buffer2 st) 4) = IInt 49151).
Proof.
  split; cbv zeta; (split; [unfold Spec.interior; vm_compute; intuition discriminate|]);
    split; vm_compute; reflexivity.
Qed.

Lemma unvisited_cells_are_fixed_witness :
  let c' := frames DEFAULT_CONFIG [zeros 64; zeros 64; zeros 64] drenched in
  get (buffer1Ref c') 4 = get (buffer2Ref drenched) 4 /\
  get (buffer2Ref c') 4 = get (buffer1Ref drenched) 4.
Proof.
  refine (unvisited_cells_are_fixed DEFAULT_CONFIG [zeros 64; zeros 64; zeros 64]
            drenched 4 4 4 _ _ _ _).
  - reflexivity.
  - lia.
  - lia.
  - left; lia.
Defined.

(** C2 as worded fails on the code.  After a resize to 4 by 4 and a drop at
    the centre, index 7 (the last column of the second row) of the array that
    was never injected holds 0; one frame later the loop has stored 1152
    there. *)
Lemma border_column_is_written :
  let c' := renderloop DEFAULT_CONFIG (zeros 64) drenched in
  Spec.border_ring 4 4 7 = true /\
  get (buffer2Ref drenched) 7 = Some 0 /\
  get (buffer1Ref c') 7 = Some 1152.
Proof. vm_compute. auto. Qed.

(** ** The interaction effect *)

(** A run of stores of one value [v]: a cell ends up holding [v] exactly when
    one of the stores addressed it. *)
Lemma get_foldl_stores {A} (f : list Z -> A -> list Z) (addresses : A -> Z -> bool) v :
  (forall b a k,
     get (f b a) k = if addresses a k then (fun _ => v) <$> get b k else get b k) ->
  forall l b k,
    get (foldl f b l) k =
      if existsb (fun a => addresses a k) l then (fun _ => v) <$> get b k else get b k.
Proof.
  intros Hf. induction l as [|a l IH]; intros b k; cbn [foldl existsb]; [done|].
  rewrite IH, Hf.
  destruct (addresses a k), (existsb _ l), (get b k); done.
Qed.

Lemma get_inject_cell w h x y b j i k :
  get (inject_cell w h x y b j i) k =
    if drop_stores w h x y k j i then (fun _ => 600) <$> get b k else get b k.
Proof.
  unfold inject_cell, drop_stores.
  destruct ((0 <=? i) && (i <? w) && (0 <=? j) && (j <? h)); [|done].
  destruct ((i - x) * (i - x) + (j - y) * (j - y) <? radius * radius); [|done].
  cbn [andb]. destruct (Z.eqb_spec k (j * w + i)) as [->|Hne].
  - apply get_set_eq.
  - apply get_set_ne. congruence.
Qed.

Lemma get_inject_at w h x y b k :
  get (inject_at w h x y b) k =
    if drop_covers w h x y k then (fun _ => 600) <$> get b k else get b k.
Proof.
  unfold inject_at, drop_covers.
  apply (get_foldl_stores (inject_row w h x y)
           (fun j k => existsb (drop_stores w h x y k j) (seqZ (x - radius) (2 * radius)))).
  intros b' j k'. unfold inject_row.
  apply (get_foldl_stores (fun b0 i => inject_cell w h x y b0 j i)
           (fun i k0 => drop_stores w h x y k0 j i)).
  intros b'' i k''. apply get_inject_cell.
Qed.

Lemma inject_at_idempotent w h x y b :
  inject_at w h x y (inject_at w h x y b) = inject_at w h x y b.
Proof.
  apply get_ext. intros k. rewrite !get_inject_at.
  destruct (drop_covers w h x y k), (get b k); done.
Qed.

Lemma size_inject_at w h x y b : size (inject_at w h x y b) = size b.
Proof.
  unfold inject_at.
  assert (Hcell : forall j i b0, size (inject_cell w h x y b0 j i) = size b0).
  { intros j i b0. unfold inject_cell.
    repeat match goal with |- context [if ?c then _ else _] => destruct c end;
      by rewrite ?size_set. }
  assert (Hrow : forall j b0, size (inject_row w h x y b0 j) = size b0).
  { intros j b0. unfold inject_row. revert b0.
    induction (seqZ (x - radius) (2 * radius)) as [|i l IH]; intros b0;
      cbn [foldl]; [done|]. by rewrite IH, Hcell. }
  revert b. induction (seqZ (y - radius) (2 * radius)) as [|j l IH]; intros b;
    cbn [foldl]; [done|]. by rewrite IH, Hrow.
Qed.

(** C6: injecting twice at the same point leaves what injecting once leaves,
    and an inactive point leaves the grid as it is. *)
Theorem inject_idempotent w h p grid :
  inject w h p (inject w h p grid) = inject w h p grid /\
  (active p = false -> inject w h p grid = grid).
Proof.
  split.
  - unfold inject. destruct (active p && (0 <? w)); [|done].
    destruct (floor (mul (px p) (of_Z w))); try done.
    destruct (floor (mul (py p) (of_Z h))); try done.
    apply inject_at_idempotent.
  - intros Ha. unfold inject. by rewrite Ha.
Qed.

Lemma inject_idempotent_witness :
  let p := {| px := c0_5; py := c0_5; active := false |} in
  inject 10 10 p (zeros 100) = zeros 100.
Proof.
  intros p. refine (proj2 (inject_idempotent 10 10 p (zeros 100)) _). reflexivity.
Defined.

(** The cells of a 10 by 10 grid within squared distance 16 of pixel (5, 5). *)
Lemma drop_covers_10 k :
  0 <= k < 100 ->
  drop_covers 10 10 5 5 k = ((k mod 10 - 5) ^ 2 + (k / 10 - 5) ^ 2 <? 16).
Proof.
  intros Hk.
  assert (Hall : forallb (fun k => Bool.eqb (drop_covers 10 10 5 5 k)
                                     ((k mod 10 - 5) ^ 2 + (k / 10 - 5) ^ 2 <? 16))
                         (seqZ 0 100) = true) by (vm_compute; reflexivity).
  rewrite forallb_forall in Hall.
  apply eqb_prop, Hall, list_elem_of_In, elem_of_seqZ. lia.
Qed.

(** C4: on a 10 by 10 grid the drop at (0.5, 0.5) is centred on pixel (5, 5);
    it overwrites with 600 exactly the cells whose squared distance from that
    pixel is below 16 and leaves every other cell as it was. *)
Theorem injection_exactness grid k :
  size grid = 100 -> 0 <= k < 100 ->
  let p := {| px := c0_5; py := c0_5; active := true |} in
  let x := k mod 10 in
  let y := k / 10 in
  size (inject 10 10 p grid) = 100 /\
  get (inject 10 10 p grid) k =
    if (x - 5) ^ 2 + (y - 5) ^ 2 <? 16 then Some 600 else get grid k.
Proof.
  intros Hsize Hk. cbv zeta.
  assert (Hinj : inject 10 10 {| px := c0_5; py := c0_5; active := true |} grid
                 = inject_at 10 10 5 5 grid) by reflexivity.
  rewrite Hinj, size_inject_at, get_inject_at, drop_covers_10 by done.
  split; [done|].
  destruct (_ <? 16); [|done].
  by rewrite (get_cell grid k) by lia.
Qed.

Lemma injection_exactness_witness :
  get (inject 10 10 {| px := c0_5; py := c0_5; active := true |} (zeros 100)) 25 =
    Some 600.
Proof.
  refine (proj2 (injection_exactness (zeros 100) 25 _ _)).
  - reflexivity.
  - lia.
Defined.

(** ** Stores into the output buffer *)

Section OutputFacts.

Implicit Types (o : list Z) (k j : Z).

Lemma get_put o k v j :
  get (put o k v) j =
    if decide (j = k) then (fun _ => to_uint8_clamp v) <$> get o k else get o j.
Proof.
  unfold put. case_decide as H.
  - subst. apply get_set_eq.
  - apply get_set_ne. congruence.
Qed.

Lemma get_update o k f j :
  get (update o k f) j =
    if decide (j = k)
    then (fun cur => to_uint8_clamp (f (of_Z cur))) <$> get o k
    else get o j.
Proof.
  unfold update. destruct (get o k) as [cur|] eqn:E.
  - rewrite get_put, E. done.
  - case_decide; by subst.
Qed.

Lemma size_put o k v : size (put o k v) = size o.
Proof. apply size_set. Qed.

Lemma size_update o k f : size (update o k f) = size o.
Proof. unfold update. destruct (get o k); [apply size_put|done]. Qed.

(** Two buffers of one size hold a value at the same indices. *)
Lemma get_same_size {B} o1 o2 k (u : B) :
  size o1 = size o2 -> (fun _ => u) <$> get o1 k = (fun _ => u) <$> get o2 k.
Proof.
  intros Hs. destruct (get o1 k) as [v1|] eqn:E1, (get o2 k) as [v2|] eqn:E2;
    try done.
  - apply get_lt in E1. destruct (get_Some o2 k) as [? ?]; [lia|congruence].
  - apply get_lt in E2. destruct (get_Some o1 k) as [? ?]; [lia|congruence].
Qed.

End OutputFacts.

Section RenderFacts.

Variable texture : list Z.
Variable l : Locals.
Variable i : Z.
Hypothesis Ht : targetIdx l = i * 4.

Lemma size_copy_texel o : size (copy_texel texture l o) = size o.
Proof. unfold copy_texel. by rewrite !size_put. Qed.

Lemma size_specular hl o : size (specular hl l o) = size o.
Proof.
  unfold specular. destruct (shading l) as [s|]; [|done].
  destruct (10 <? s); [|done]. by rewrite !size_update.
Qed.

Lemma size_tint base o : size (tint base l o) = size o.
Proof.
  unfold tint. destruct (gt (tintFactor l) c0_05); [|done].
  by rewrite !size_update.
Qed.

Lemma copy_texel_outside o k : ~ channels i k -> get (copy_texel texture l o) k = get o k.
Proof.
  unfold channels, copy_texel. intros Hk. rewrite Ht, !get_put.
  repeat case_decide; try done; lia.
Qed.

Lemma specular_outside hl o k : ~ channels i k -> get (specular hl l o) k = get o k.
Proof.
  unfold channels, specular. intros Hk. destruct (shading l) as [s|]; [|done].
  destruct (10 <? s); [|done]. rewrite Ht, !get_update.
  repeat case_decide; try done; lia.
Qed.

Lemma tint_outside base o k : ~ channels i k -> get (tint base l o) k = get o k.
Proof.
  unfold channels, tint. intros Hk. destruct (gt (tintFactor l) c0_05); [|done].
  rewrite Ht, !get_update. repeat case_decide; try done; lia.
Qed.

(** After the copy, the channels of the pixel no longer depend on what the
    buffer held. *)
Lemma copy_texel_agree o1 o2 :
  size o1 = size o2 -> agree i (copy_texel texture l o1) (copy_texel texture l o2).
Proof.
  intros Hs k Hk. unfold copy_texel. rewrite Ht, !get_put.
  repeat case_decide; try (by apply get_same_size);
    unfold channels in Hk; lia.
Qed.

Lemma specular_agree hl o1 o2 :
  agree i o1 o2 -> agree i (specular hl l o1) (specular hl l o2).
Proof.
  intros Ha k Hk. unfold specular. destruct (shading l) as [s|]; [|by apply Ha].
  destruct (10 <? s); [|by apply Ha]. rewrite Ht, !get_update.
  repeat case_decide; subst; rewrite ?Ha; try done; unfold channels in *; lia.
Qed.

Lemma tint_agree base o1 o2 :
  agree i o1 o2 -> agree i (tint base l o1) (tint base l o2).
Proof.
  intros Ha k Hk. unfold tint. destruct (gt (tintFactor l) c0_05); [|by apply Ha].
  rewrite Ht, !get_update.
  repeat case_decide; subst; rewrite ?Ha; try done; unfold channels in *; lia.
Qed.

End RenderFacts.

Lemma targetIdx_locals sh w h b2 i : targetIdx (locals sh w h b2 i) = i * 4.
Proof. reflexivity. Qed.

Section RenderPixel.

Variable cfg : RippleConfig.
Variables w h : Z.
Variable texture : list Z.

Lemma size_output_render_pixel st i :
  size (output (render_pixel cfg w h texture st i)) = size (output st).
Proof.
  unfold render_pixel. cbn [output].
  by rewrite size_tint, size_specular, size_copy_texel.
Qed.

Lemma render_pixel_outside st i k :
  ~ channels i k ->
  get (output (render_pixel cfg w h texture st i)) k = get (output st) k.
Proof.
  intros Hk. unfold render_pixel. cbn [output].
  rewrite (tint_outside _ i), (specular_outside _ i), (copy_texel_outside _ _ i);
    auto using targetIdx_locals.
Qed.

Lemma render_pixel_agree st1 st2 i :
  buffer2 st1 = buffer2 st2 -> size (output st1) = size (output st2) ->
  agree i (output (render_pixel cfg w h texture st1 i))
          (output (render_pixel cfg w h texture st2 i)).
Proof.
  intros Hb Hs. unfold render_pixel. cbn [output]. rewrite Hb.
  apply tint_agree, specular_agree, copy_texel_agree;
    auto using targetIdx_locals.
Qed.

Lemma size_output_pixel st i :
  size (output (pixel cfg w h texture st i)) = size (output st).
Proof. unfold pixel. by rewrite size_output_render_pixel. Qed.

Lemma size_output_foldl_pixel l st :
  size (output (foldl (pixel cfg w h texture) st l)) = size (output st).
Proof.
  revert st. induction l as [|i l IH]; intros st; cbn [foldl]; [done|].
  by rewrite IH, size_output_pixel.
Qed.

(** Iterations at other pixels leave the channels of a pixel alone. *)
Lemma foldl_pixel_outside l k :
  Forall (fun j => ~ channels j k) l ->
  forall st, get (output (foldl (pixel cfg w h texture) st l)) k = get (output st) k.
Proof.
  induction 1 as [|j l Hj Hl IH]; intros st; cbn [foldl]; [done|].
  rewrite IH. unfold pixel. by rewrite render_pixel_outside.
Qed.

(** The loop, cut at a visited index. *)
Lemma loop_indices_split i :
  visited w h i ->
  loop_indices w h =
    seqZ (w + 1) (i - (w + 1)) ++ i :: seqZ (i + 1) (w * h - w - 1 - (i + 1)).
Proof.
  intros [Hlo Hhi]. unfold loop_indices.
  replace (w * h - w - 1 - (w + 1))
    with ((i - (w + 1)) + (w * h - w - 1 - i)) by lia.
  rewrite seqZ_app by lia. f_equal.
  rewrite seqZ_cons by lia. f_equal; [lia|]. f_equal; lia.
Qed.

Lemma pixel_loop_split st i :
  visited w h i ->
  pixel_loop cfg w h texture st =
    foldl (pixel cfg w h texture)
      (render_pixel cfg w h texture (rendering_state cfg w h texture st i) i)
      (seqZ (i + 1) (w * h - w - 1 - (i + 1))).
Proof.
  intros Hi. unfold pixel_loop. rewrite (loop_indices_split i Hi).
  by rewrite foldl_app.
Qed.

(** The channels of a visited pixel after the loop are the ones its own
    iteration wrote. *)
Lemma pixel_loop_channels st i k :
  visited w h i -> channels i k ->
  get (output (pixel_loop cfg w h texture st)) k =
    get (output (render_pixel cfg w h texture
                   (rendering_state cfg w h texture st i) i)) k.
Proof.
  intros Hi Hk. rewrite (pixel_loop_split st i Hi).
  apply foldl_pixel_outside. apply Forall_seqZ.
  intros j Hj. unfold channels in *. lia.
Qed.

Lemma buffer2_rendering_state st i :
  buffer2 (rendering_state cfg w h texture st i) =
    physics (damping cfg) w (buffer1 st)
      (foldl (physics (damping cfg) w (buffer1 st)) (buffer2 st)
             (seqZ (w + 1) (i - (w + 1)))) i.
Proof.
  unfold rendering_state, physics_step. cbn [buffer2].
  by rewrite buffer1_foldl_pixel, buffer2_foldl_pixel.
Qed.

Lemma size_output_rendering_state st i :
  size (output (rendering_state cfg w h texture st i)) = size (output st).
Proof.
  unfold rendering_state, physics_step. cbn [output].
  apply size_output_foldl_pixel.
Qed.

(** During iteration [i] the cells up to [i] already hold their values of
    the end of the frame, the cells after [i] still those of its start. *)
Lemma get_rendering_state st i k :
  visited w h i ->
  get (buffer2 (rendering_state cfg w h texture st i)) k =
    if decide (k <= i)
    then get (buffer2 (pixel_loop cfg w h texture st)) k
    else get (buffer2 st) k.
Proof.
  intros Hi. rewrite buffer2_rendering_state, buffer2_pixel_loop, get_propagate.
  destruct (decide (k = i)) as [->|Hne].
  - rewrite get_physics_eq, get_foldl_physics by apply NoDup_seqZ.
    rewrite decide_False by (rewrite elem_of_seqZ; lia).
    by rewrite decide_True, decide_True by (done || lia).
  - rewrite get_physics_ne, get_foldl_physics by (done || apply NoDup_seqZ).
    unfold visited in *.
    repeat case_decide; try done; exfalso;
      rewrite elem_of_seqZ in *; lia.
Qed.

End RenderPixel.

(** ** Gradients *)

(** C3 (amended): at every visited pixel [i] the gradients are read from the
    grid while the loop is still rewriting it: the cells before [i] hold their
    values of the end of the frame's propagation, the cells after [i] still
    hold what the array held when the frame began.  So
    [gx = post[i-1] - pre[i+1]] and [gy = post[i-w] - pre[i+w]]. *)
Theorem gradients_read_grid_in_progress cfg w h texture st i :
  0 < w -> size (buffer2 st) = w * h -> visited w h i ->
  let pre := buffer2 st in
  let post := buffer2 (pixel_loop cfg w h texture st) in
  let l := locals_at cfg w h texture st i in
  xOffset l = Some (cell post (i - 1) - cell pre (i + 1)) /\
  yOffset l = Some (cell post (i - w) - cell pre (i + w)).
Proof.
  intros Hw Hs Hi. cbv zeta. pose proof Hi as [Hlo Hhi].
  assert (Hpost : size (buffer2 (pixel_loop cfg w h texture st)) = w * h).
  { by rewrite buffer2_pixel_loop, size_propagate. }
  unfold locals_at, locals. cbn [xOffset yOffset].
  rewrite !get_rendering_state by done.
  rewrite (decide_True (P := i - 1 <= i)), (decide_True (P := i - w <= i)) by lia.
  rewrite (decide_False (P := i + 1 <= i)), (decide_False (P := i + w <= i)) by lia.
  rewrite (get_cell _ (i - 1)), (get_cell _ (i - w)) by lia.
  rewrite (get_cell _ (i + 1)), (get_cell _ (i + w)) by lia.
  done.
Qed.

Lemma gradients_read_grid_in_progress_witness :
  let st := {| buffer1 := buffer1Ref drenched;
               buffer2 := buffer2Ref drenched;
               output := zeros 64 |} in
  xOffset (locals_at DEFAULT_CONFIG 4 4 (zeros 64) st 6) = Some 1152.
Proof.
  intros st.
  refine (proj1 (gradients_read_grid_in_progress DEFAULT_CONFIG 4 4 (zeros 64) st 6 _ _ _)).
  - lia.
  - reflexivity.
  - unfold visited; lia.
Defined.

(** C3 as worded fails on the code.  In the first frame after a drop has
    covered a 4 by 4 grid, the propagation leaves 0 in cell 4 and 1152 in
    cell 6, so the finished grid has [grid[4] - grid[6] = -1152] at the
    interior pixel 5; the loop computed [xOffset = 0] there, reading cell 6
    before its turn. *)
Lemma gradient_is_not_of_finished_grid :
  let st := {| buffer1 := buffer1Ref drenched;
               buffer2 := buffer2Ref drenched;
               output := zeros 64 |} in
  let grid := buffer2 (pixel_loop DEFAULT_CONFIG 4 4 (zeros 64) st) in
  Spec.interior 4 4 5 /\
  get grid 4 = Some 0 /\ get grid 6 = Some 1152 /\
  xOffset (locals_at DEFAULT_CONFIG 4 4 (zeros 64) st 5) = Some 0.
Proof.
  cbv zeta. split; [unfold Spec.interior; vm_compute; intuition discriminate|].
  vm_compute. auto.
Qed.

(** ** Determinism and purity of the rendering statements *)

Lemma pixel_loop_agree cfg w h texture st1 st2 i :
  buffer1 st1 = buffer1 st2 -> buffer2 st1 = buffer2 st2 ->
  size (output st1) = size (output st2) ->
  visited w h i ->
  agree i (output (pixel_loop cfg w h texture st1))
          (output (pixel_loop cfg w h texture st2)).
Proof.
  intros H1 H2 Hs Hi k Hk.
  rewrite !(pixel_loop_channels cfg w h texture _ i k) by done.
  apply render_pixel_agree; [|by rewrite !size_output_rendering_state|done].
  by rewrite !buffer2_rendering_state, H1, H2.
Qed.

(** C7: the rendering statements of an iteration leave both grids as they
    are and store only into the four channels of their own pixel; what the
    loop leaves in the channels of every visited pixel is determined by the
    grids, the texture and the theme, whatever the output buffer held before,
    and the channels of the other pixels are not written. *)
Theorem render_deterministic cfg w h texture st1 st2 :
  buffer1 st1 = buffer1 st2 -> buffer2 st1 = buffer2 st2 ->
  size (output st1) = size (output st2) ->
  (forall i,
     let r := render_pixel cfg w h texture st1 i in
     buffer1 r = buffer1 st1 /\ buffer2 r = buffer2 st1 /\
     forall k, ~ channels i k -> get (output r) k = get (output st1) k) /\
  (forall i, agree i (output (render_pixel cfg w h texture st1 i))
                     (output (render_pixel cfg w h texture st2 i))) /\
  (forall i, visited w h i ->
     agree i (output (pixel_loop cfg w h texture st1))
             (output (pixel_loop cfg w h texture st2))) /\
  (forall k, (forall i, visited w h i -> ~ channels i k) ->
     get (output (pixel_loop cfg w h texture st1)) k = get (output st1) k).
Proof.
  intros H1 H2 Hs. repeat split.
  - intros k Hk. by apply render_pixel_outside.
  - intros i. by apply render_pixel_agree.
  - intros i Hi. by apply pixel_loop_agree.
  - intros k Hk. apply foldl_pixel_outside.
    apply Forall_forall. intros j Hj. apply Hk. by apply elem_of_loop_indices.
Qed.

Lemma render_deterministic_witness :
  let st1 := {| buffer1 := [0; 600; 0; 0; 0; 0; 0; 0; 0];
                buffer2 := [0; 0; 0; 0; 0; 600; 0; 0; 0];
                output := zeros 36 |} in
  let st2 := {| buffer1 := [0; 600; 0; 0; 0; 0; 0; 0; 0];
                buffer2 := [0; 0; 0; 0; 0; 600; 0; 0; 0];
                output := replicate 36 77 |} in
  agree 4 (output (pixel_loop DEFAULT_CONFIG 3 3 (replicate 36 100) st1))
          (output (pixel_loop DEFAULT_CONFIG 3 3 (replicate 36 100) st2)).
Proof.
  intros st1 st2.
  refine (proj1 (proj2 (proj2
            (render_deterministic DEFAULT_CONFIG 3 3 (replicate 36 100) st1 st2 _ _ _))) 4 _).
  - reflexivity.
  - reflexivity.
  - reflexivity.
  - unfold visited; lia.
Defined.

(** ** The grid at rest *)

Lemma halfSum_zeros n w i : halfSum (zeros n) w i = 0.
Proof.
  unfold halfSum.
  destruct (get (zeros n) (i - 1)) as [a|] eqn:Ea; [|done].
  destruct (get (zeros n) (i + 1)) as [b|] eqn:Eb; [|done].
  destruct (get (zeros n) (i - w)) as [c|] eqn:Ec; [|done].
  destruct (get (zeros n) (i + w)) as [e|] eqn:Ee; [|done].
  apply get_zeros_inv in Ea, Eb, Ec, Ee. by subst.
Qed.

(** Zero stays zero under any damping, NaN and the infinities included. *)
Lemma damp_zero d : damp d 0 = 0.
Proof. by destruct d. Qed.

Lemma next_cell_zeros d w n i : next_cell d w (zeros n) i 0 = 0.
Proof. unfold next_cell. rewrite halfSum_zeros. apply damp_zero. Qed.

Lemma physics_zeros d w n i : physics d w (zeros n) (zeros n) i = zeros n.
Proof.
  apply get_ext. intros k. destruct (decide (k = i)) as [->|Hne].
  - rewrite get_physics_eq. destruct (get (zeros n) i) as [v|] eqn:E; [|done].
    apply get_zeros_inv in E as ->. cbn. by rewrite next_cell_zeros.
  - by apply get_physics_ne.
Qed.

Lemma foldl_physics_zeros d w n l :
  foldl (physics d w (zeros n)) (zeros n) l = zeros n.
Proof.
  induction l as [|i l IH]; cbn [foldl]; [done|]. by rewrite physics_zeros.
Qed.

Lemma propagate_zeros d w h n : propagate d w h (zeros n) (zeros n) = zeros n.
Proof. apply foldl_physics_zeros. Qed.

(** ** Rendering a flat grid *)

Lemma distortion_zero sh : is_finite sh = true -> distortion sh (Some 0) = IInt 0.
Proof. by destruct sh. Qed.

Lemma clamp_inside x n : 0 <= x < n -> clamp (int_add x (IInt 0)) n = IInt x.
Proof.
  intros Hx. unfold clamp, int_add, int_ltb, int_geb. rewrite Z.add_0_r.
  destruct (Z.ltb_spec x 0); [lia|]. cbn.
  destruct (Z.leb_spec n x); [lia|]. done.
Qed.

Lemma to_uint8_clamp_of_Z v : uint8 v -> to_uint8_clamp (of_Z v) = v.
Proof.
  intros Hv.
  assert (Hall : forallb (fun v => to_uint8_clamp (of_Z v) =? v) (seqZ 0 256) = true)
    by (vm_compute; reflexivity).
  rewrite forallb_forall in Hall.
  apply Z.eqb_eq, Hall, list_elem_of_In, elem_of_seqZ. unfold uint8 in Hv. lia.
Qed.

(** The bindings of a pixel over a flat grid. *)
Lemma locals_flat sh w h i :
  0 < w -> 0 < h -> is_finite sh = true -> visited w h i ->
  let l := locals sh w h (zeros (w * h)) i in
  xOffset l = Some 0 /\ yOffset l = Some 0 /\
  distortionX l = IInt 0 /\ distortionY l = IInt 0 /\
  sourceX l = IInt (i mod w) /\ sourceY l = IInt (i / w) /\
  sourceIdx l = Some (i * 4) /\
  tintFactor l = S754_zero false /\ shading l = Some 0.
Proof.
  intros Hw Hh Hsh [Hlo Hhi]. unfold locals.
  cbn [xOffset yOffset distortionX distortionY sourceX sourceY sourceIdx
       tintFactor shading].
  rewrite !get_zeros by lia. cbn [cell_diff]. change (0 - 0) with 0.
  rewrite distortion_zero by done.
  rewrite Z.rem_mod_nonneg by lia.
  assert (Hx : 0 <= i mod w < w) by (apply Z.mod_pos_bound; lia).
  assert (Hy : 0 <= i / w < h).
  { split; [apply Z.div_pos; lia|]. apply Z.div_lt_upper_bound; nia. }
  rewrite !clamp_inside by done.
  repeat split; try done.
  f_equal. pose proof (Z.div_mod i w ltac:(lia)). lia.
Qed.

Lemma render_pixel_flat cfg w h texture st i :
  0 < w -> 0 < h -> is_finite (shimmer cfg) = true -> visited w h i ->
  buffer2 st = zeros (w * h) ->
  size texture = 4 * w * h -> size (output st) = 4 * w * h ->
  Forall uint8 texture ->
  let out := output (render_pixel cfg w h texture st i) in
  get out (4 * i) = get texture (4 * i) /\
  get out (4 * i + 1) = get texture (4 * i + 1) /\
  get out (4 * i + 2) = get texture (4 * i + 2) /\
  get out (4 * i + 3) = Some 255.
Proof.
  intros Hw Hh Hsh Hi Hb Ht Ho Hu. pose proof Hi as [Hlo Hhi].
  destruct (locals_flat (shimmer cfg) w h i Hw Hh Hsh Hi)
    as (_ & _ & _ & _ & _ & _ & Hsrc & Htint & Hshade).
  cbv zeta in *. unfold render_pixel. cbn [output]. rewrite Hb.
  unfold tint, specular. rewrite Htint, Hshade.
  change (gt (S754_zero false) c0_05) with false. change (10 <? 0) with false.
  unfold copy_texel, texel. rewrite Hsrc. cbn [targetIdx locals].
  replace (4 * i) with (i * 4) by lia.
  assert (Htex : forall c, 0 <= c < 4 ->
            get texture (i * 4 + c) = Some (cell texture (i * 4 + c)) /\
            uint8 (cell texture (i * 4 + c))).
  { intros c Hc. assert (Hk : 0 <= i * 4 + c < size texture) by nia.
    pose proof (get_cell texture _ Hk) as Hg. split; [done|].
    unfold get in Hg. destruct (_ <? 0); [done|].
    by eapply (proj1 (Forall_lookup _ _) Hu). }
  rewrite Z.add_0_r.
  destruct (Htex 0 ltac:(lia)) as [H0 U0]. rewrite Z.add_0_r in H0, U0.
  destruct (Htex 1 ltac:(lia)) as [H1 U1].
  destruct (Htex 2 ltac:(lia)) as [H2 U2].
  rewrite H0, H1, H2, !get_put.
  repeat case_decide; try lia.
  rewrite (get_cell (output st) (i * 4)) by nia.
  rewrite (get_cell (output st) (i * 4 + 1)) by nia.
  rewrite (get_cell (output st) (i * 4 + 2)) by nia.
  rewrite (get_cell (output st) (i * 4 + 3)) by nia.
  cbn [fmap option_fmap option_map].
  rewrite !to_uint8_clamp_of_Z by done. done.
Qed.

(** C5: over grids at rest, whatever the texture, the theme colours and the
    damping, and for every finite shimmer, every visited pixel (the interior
    pixels among them) has zero displacement, samples its own texel, has
    [shading = 0] and [tintFactor = 0], and comes out with the texture's RGB at
    that pixel and alpha 255. *)
Theorem flat_grid_renders_texture cfg w h texture st i :
  0 < w -> 0 < h -> is_finite (shimmer cfg) = true ->
  buffer1 st = zeros (w * h) -> buffer2 st = zeros (w * h) ->
  size texture = 4 * w * h -> size (output st) = 4 * w * h ->
  Forall uint8 texture ->
  Spec.interior w h i \/ visited w h i ->
  let l := locals_at cfg w h texture st i in
  let out := output (pixel_loop cfg w h texture st) in
  distortionX l = IInt 0 /\ distortionY l = IInt 0 /\
  sourceIdx l = Some (i * 4) /\
  shading l = Some 0 /\ tintFactor l = S754_zero false /\
  get out (4 * i) = get texture (4 * i) /\
  get out (4 * i + 1) = get texture (4 * i + 1) /\
  get out (4 * i + 2) = get texture (4 * i + 2) /\
  get out (4 * i + 3) = Some 255.
Proof.
  intros Hw Hh Hsh Hb1 Hb2 Ht Ho Hu Hi. cbv zeta.
  assert (Hv : visited w h i) by (destruct Hi; [by apply interior_visited|done]).
  assert (Hrest : buffer2 (rendering_state cfg w h texture st i) = zeros (w * h)).
  { by rewrite buffer2_rendering_state, Hb1, Hb2, foldl_physics_zeros, physics_zeros. }
  destruct (locals_flat (shimmer cfg) w h i Hw Hh Hsh Hv)
    as (_ & _ & HdX & HdY & _ & _ & Hsrc & Htint & Hshade).
  cbv zeta in *. unfold locals_at. rewrite Hrest.
  repeat (split; [done|]).
  rewrite !(pixel_loop_channels cfg w h texture st i) by (done || unfold channels; lia).
  apply render_pixel_flat; try done.
  by rewrite size_output_rendering_state.
Qed.

Lemma flat_grid_renders_texture_witness :
  let st := {| buffer1 := zeros 9; buffer2 := zeros 9; output := zeros 36 |} in
  let texture := seqZ 100 36 in
  get (output (pixel_loop DEFAULT_CONFIG 3 3 texture st)) (4 * 4) = Some 116.
Proof.
  intros st texture.
  refine (proj1 (proj2 (proj2 (proj2 (proj2 (proj2
            (flat_grid_renders_texture DEFAULT_CONFIG 3 3 texture st 4
               _ _ _ _ _ _ _ _ _))))))).
  - lia.
  - lia.
  - reflexivity.
  - reflexivity.
  - reflexivity.
  - reflexivity.
  - reflexivity.
  - apply Forall_seqZ. unfold uint8. lia.
  - right. unfold visited. lia.
Defined.

(** ** Colour parsing *)

Lemma hex_digit_hex_char c v : Color.hex_digit c = Some v -> Spec.hex_char c = true.
Proof.
  destruct c as [[] [] [] [] [] [] [] []]; vm_compute; congruence.
Qed.

Lemma groups_hex s c :
  Color.groups s = Some c ->
  (Z.of_nat (String.length s) =? 6) && forallb Spec.hex_char (list_ascii_of_string s) = true.
Proof.
  unfold Color.groups, Color.parse_pair.
  destruct s as [|c1 [|c2 [|c3 [|c4 [|c5 [|c6 [|]]]]]]]; try done.
  destruct (Color.hex_digit c1) eqn:E1; [|done].
  destruct (Color.hex_digit c2) eqn:E2; [|done].
  destruct (Color.hex_digit c3) eqn:E3; [|done].
  destruct (Color.hex_digit c4) eqn:E4; [|done].
  destruct (Color.hex_digit c5) eqn:E5; [|done].
  destruct (Color.hex_digit c6) eqn:E6; [|done].
  intros _. cbn [list_ascii_of_string forallb String.length].
  apply hex_digit_hex_char in E1, E2, E3, E4, E5, E6.
  by rewrite E1, E2, E3, E4, E5, E6.
Qed.

Lemma exec_hex s c : Color.exec s = Some c -> Spec.hex_colour s = true.
Proof.
  unfold Color.exec, Spec.hex_colour.
  destruct s as [|a s']; [done|].
  destruct (Ascii.eqb_spec a "#"%char) as [->|Hne].
  - destruct (Color.groups s') as [c'|] eqn:E.
    + intros _. by apply groups_hex in E.
    + intros E'. apply groups_hex in E'.
      cbn [list_ascii_of_string forallb] in E'.
      change (Spec.hex_char "#") with false in E'.
      by rewrite andb_false_r in E'.
  - assert (Hs : match a with
                 | "#"%char => s'
                 | _ => String a s'
                 end = String a s').
    { destruct a as [[] [] [] [] [] [] [] []]; try done. }
    assert (He : forall X (u v : X), match a with "#"%char => u | _ => v end = v).
    { intros X u v. destruct a as [[] [] [] [] [] [] [] []]; try done. }
    rewrite Hs, He. apply groups_hex.
Qed.

(** C9: the parser is a total function; ["#ff0000"] parses to (255, 0, 0),
    ["blue"] to (0, 0, 0), and so does every string that is not six
    hexadecimal digits with an optional leading [#]. *)
Theorem hexToRgb_total :
  Color.hexToRgb "#ff0000" = {| Color.r := 255; Color.g := 0; Color.b := 0 |} /\
  Color.hexToRgb "blue" = {| Color.r := 0; Color.g := 0; Color.b := 0 |} /\
  (forall s, Spec.hex_colour s = false ->
     Color.hexToRgb s = {| Color.r := 0; Color.g := 0; Color.b := 0 |}).
Proof.
  repeat split.
  intros s Hs. unfold Color.hexToRgb.
  destruct (Color.exec s) as [c|] eqn:E; [|done].
  apply exec_hex in E. congruence.
Qed.

Lemma hexToRgb_total_witness :
  Color.hexToRgb "#12345g" = {| Color.r := 0; Color.g := 0; Color.b := 0 |}.
Proof.
  refine (proj2 (proj2 hexToRgb_total) "#12345g"%string _). reflexivity.
Defined.

(** ** Rounding never carries a product past an integer it was below *)

Lemma shr_m_shr_1 mrs : 0 <= shr_m mrs -> shr_m (shr_1 mrs) = shr_m mrs / 2.
Proof.
  destruct mrs as [m r s]. cbn [shr_m]. intros Hm.
  destruct m as [|[p|p|]|p]; cbn [shr_1 shr_m]; try lia.
  - done.
  - rewrite Pos2Z.inj_xI. apply Z.div_unique with (r := 1); lia.
  - rewrite Pos2Z.inj_xO. apply Z.div_unique with (r := 0); lia.
  - done.
Qed.

Lemma shr_m_iter p : forall mrs,
  0 <= shr_m mrs -> shr_m (SpecFloat.iter_pos shr_1 p mrs) = shr_m mrs / 2 ^ Zpos p.
Proof.
  induction p as [p IH|p IH|]; intros mrs Hm; cbn [SpecFloat.iter_pos].
  - assert (H1 : 0 <= shr_m (shr_1 mrs)).
    { rewrite shr_m_shr_1 by done. apply Z.div_pos; lia. }
    assert (H2 : 0 <= shr_m (SpecFloat.iter_pos shr_1 p (shr_1 mrs))).
    { rewrite IH by done. apply Z.div_pos; [done|]. apply Z.pow_pos_nonneg; lia. }
    rewrite IH, IH, shr_m_shr_1 by done.
    rewrite !Z.div_div by (try apply Z.pow_pos_nonneg; lia).
    f_equal.
    assert (E : Z.pos p~1 = Z.pos p + Z.pos p + 1) by lia. rewrite E.
    rewrite !Z.pow_add_r by lia. change (2 ^ 1) with 2. ring.
  - assert (H2 : 0 <= shr_m (SpecFloat.iter_pos shr_1 p mrs)).
    { rewrite IH by done. apply Z.div_pos; [done|]. apply Z.pow_pos_nonneg; lia. }
    rewrite IH, IH by done.
    rewrite !Z.div_div by (try apply Z.pow_pos_nonneg; lia).
    f_equal.
    assert (E : Z.pos p~0 = Z.pos p + Z.pos p) by lia. rewrite E.
    rewrite !Z.pow_add_r by lia. ring.
  - rewrite shr_m_shr_1 by done. done.
Qed.

Lemma digits2_pos_size p : digits2_pos p = Pos.size p.
Proof. induction p; cbn; congruence. Qed.

Lemma digits2_pos_gt p : Zpos p < 2 ^ Zpos (digits2_pos p).
Proof.
  rewrite digits2_pos_size. pose proof (Pos.size_gt p) as H.
  apply Pos2Z.pos_lt_pos in H. by rewrite Pos2Z.inj_pow in H.
Qed.

Lemma digits2_pos_le p k : 0 <= k -> Zpos p < 2 ^ k -> Zpos (digits2_pos p) <= k.
Proof.
  intros Hk Hp. rewrite digits2_pos_size.
  pose proof (Pos.size_le p) as H. apply Pos2Z.pos_le_pos in H.
  rewrite Pos2Z.inj_pow in H.
  assert (Hlt : 2 ^ Zpos (Pos.size p) < 2 ^ (k + 1)).
  { rewrite Z.pow_add_r by lia. change (2 ^ 1) with 2. lia. }
  apply Z.pow_lt_mono_r_iff in Hlt; lia.
Qed.

(** The integer a nonnegative mantissa at exponent [e] floors to, and its
    mirror image, stay within [V] when the mantissa does. *)
Lemma shiftl_within m e e0 V :
  0 <= m -> e0 <= 0 -> e0 <= e -> m * 2 ^ (e - e0) <= V * 2 ^ (- e0) ->
  0 <= Z.shiftl m e <= V /\ - V <= Z.shiftl (- m) e <= 0.
Proof.
  intros Hm He0 He Hle.
  assert (Hp0 : 0 < 2 ^ (- e0)) by (apply Z.pow_pos_nonneg; lia).
  destruct (Z.le_gt_cases 0 e) as [Hpos|Hneg].
  - rewrite !Z.shiftl_mul_pow2 by done.
    assert (Hp : 0 < 2 ^ e) by (apply Z.pow_pos_nonneg; lia).
    replace (e - e0) with (e + - e0) in Hle by lia.
    rewrite Z.pow_add_r in Hle by lia. nia.
  - rewrite !Z.shiftl_div_pow2 by lia.
    assert (Hp : 0 < 2 ^ (- e)) by (apply Z.pow_pos_nonneg; lia).
    assert (Hq : 0 < 2 ^ (e - e0)) by (apply Z.pow_pos_nonneg; lia).
    assert (Hsplit : 2 ^ (- e0) = 2 ^ (- e) * 2 ^ (e - e0)).
    { rewrite <- Z.pow_add_r by lia. f_equal. lia. }
    rewrite Hsplit in Hle.
    assert (Hm' : m <= V * 2 ^ (- e)) by nia.
    repeat split.
    + apply Z.div_pos; lia.
    + apply Z.div_le_upper_bound; lia.
    + apply Z.div_le_lower_bound; lia.
    + apply Z.div_le_upper_bound; lia.
Qed.

(** The second half of [binary_round_aux]: renormalising a rounded mantissa. *)
Lemma renormalised_within s m e V :
  0 <= V -> 0 <= m -> e <= 0 -> m <= V * 2 ^ (- e) ->
  within s V
    (floor (let '(mrs, e') := shr_fexp prec emax m e loc_Exact in
            match shr_m mrs with
            | Z0 => S754_zero s
            | Zpos m' => if e' <=? emax - prec then S754_finite s m' e'
                         else S754_infinity s
            | Zneg _ => S754_nan
            end)).
Proof.
  intros HV Hm He Hle. unfold shr_fexp, shr.
  assert (Hstep : forall m' e', 0 <= m' -> e <= e' -> m' * 2 ^ (e' - e) <= m ->
            within s V
              (floor match m' with
                     | Z0 => S754_zero s
                     | Zpos m'' => if e' <=? emax - prec then S754_finite s m'' e'
                                   else S754_infinity s
                     | Zneg _ => S754_nan
                     end)).
  { intros m' e' Hm' He' Hle'. destruct m' as [|p|p]; cbn [floor within].
    - destruct s; lia.
    - destruct (e' <=? emax - prec); cbn [floor within]; [|done].
      destruct (shiftl_within (Zpos p) e' e V) as [H1 H2]; try lia.
      destruct s; cbn [cond_Zopp]; [exact H2|exact H1].
    - done. }
  destruct (fexp prec emax (Zdigits2 m + e) - e) as [|n|n] eqn:En;
    cbn [shr_record_of_loc].
  - apply Hstep; [done|lia|]. rewrite Z.sub_diag. cbn. lia.
  - rewrite shr_m_iter by done. cbn [shr_m].
    assert (Hp : 0 < 2 ^ Zpos n) by (apply Z.pow_pos_nonneg; lia).
    apply Hstep.
    + apply Z.div_pos; lia.
    + lia.
    + replace (e + Zpos n - e) with (Zpos n) by lia.
      pose proof (Z.mul_div_le m (2 ^ Zpos n) Hp). lia.
  - apply Hstep; [done|lia|]. rewrite Z.sub_diag. cbn. lia.
Qed.

Lemma round_nearest_even_bounds m l : m <= round_nearest_even m l <= m + 1.
Proof.
  destruct l as [|[]]; cbn [round_nearest_even]; try destruct (Z.even m); lia.
Qed.

(** Rounding the exact product [M * 2^E], which lies strictly below the
    integer [V], gives a number whose floor is still within [V]. *)
Lemma rounded_within s M E V :
  0 < V <= 2 ^ 16 -> E <= 0 -> Zpos M < V * 2 ^ (- E) ->
  within s V (floor (binary_round_aux prec emax s (Zpos M) E loc_Exact)).
Proof.
  intros HV HE HM. unfold binary_round_aux.
  unfold shr_fexp at 1. unfold shr.
  destruct (fexp prec emax (Zdigits2 (Zpos M) + E) - E) as [|n|n] eqn:En;
    cbn [shr_record_of_loc loc_of_shr_record shr_m round_nearest_even].
  - apply renormalised_within; lia.
  - set (mrs := SpecFloat.iter_pos shr_1 n _).
    assert (Hm1 : shr_m mrs = Zpos M / 2 ^ Zpos n).
    { unfold mrs. by rewrite shr_m_iter. }
    pose proof (round_nearest_even_bounds (shr_m mrs) (loc_of_shr_record mrs)) as Hr.
    assert (Hp : 0 < 2 ^ Zpos n) by (apply Z.pow_pos_nonneg; lia).
    assert (Hpe : 0 < 2 ^ (- E)) by (apply Z.pow_pos_nonneg; lia).
    assert (Hd : Zpos (digits2_pos M) <= 16 - E).
    { apply digits2_pos_le; [lia|].
      replace (16 - E) with (16 + - E) by lia. rewrite Z.pow_add_r by lia. nia. }
    assert (He' : E + Zpos n <= 0).
    { cbn [Zdigits2] in En. unfold fexp, emin, prec, emax in En. lia. }
    assert (Hsplit : 2 ^ (- E) = 2 ^ (- (E + Zpos n)) * 2 ^ Zpos n).
    { rewrite <- Z.pow_add_r by lia. f_equal. lia. }
    assert (Hlt : Zpos M / 2 ^ Zpos n < V * 2 ^ (- (E + Zpos n))).
    { apply Z.div_lt_upper_bound; [done|]. rewrite Hsplit in HM. lia. }
    assert (H0 : 0 <= Zpos M / 2 ^ Zpos n) by (apply Z.div_pos; lia).
    apply renormalised_within; lia.
  - apply renormalised_within; lia.
Qed.

Lemma iter_xO_spec d : forall p,
  Zpos (Pos.iter xO p d) = Zpos p * 2 ^ Zpos d /\
  digits2_pos (Pos.iter xO p d) = (digits2_pos p + d)%positive.
Proof.
  induction d as [|d IH] using Pos.peano_ind; intros p.
  - cbn [Pos.iter]. split; [lia|]. cbn [digits2_pos]. lia.
  - rewrite Pos.iter_succ. destruct (IH p) as [Hv Hd]. split.
    + rewrite Pos2Z.inj_xO, Hv, Pos2Z.inj_succ, Z.pow_succ_r by lia. lia.
    + cbn [digits2_pos]. rewrite Hd. lia.
Qed.

(** A mantissa of exactly 53 bits in the exponent range is its own rounding. *)
Lemma binary_round_aux_canonical s m e :
  Zpos (digits2_pos m) = 53 -> -1074 <= e <= 971 ->
  binary_round_aux prec emax s (Zpos m) e loc_Exact = S754_finite s m e.
Proof.
  intros Hd He. unfold binary_round_aux, shr_fexp. cbn [Zdigits2].
  assert (Hf : fexp prec emax (Zpos (digits2_pos m) + e) - e = 0).
  { rewrite Hd. unfold fexp, emin, prec, emax. lia. }
  rewrite Hf. cbn [shr shr_record_of_loc loc_of_shr_record shr_m round_nearest_even Zdigits2].
  rewrite Hf. cbn [shr shr_record_of_loc shr_m].
  destruct (Z.leb_spec e (emax - prec)) as [|Hgt]; [done|].
  unfold emax, prec in Hgt. lia.
Qed.

(** A nonzero integer below 2^53 is a binary64 number, exactly. *)
Lemma of_Z_exact v :
  v <> 0 -> Z.abs v < 2 ^ 53 ->
  exists m e, of_Z v = S754_finite (v <? 0) m e /\ e <= 0 /\
              Zpos m = Z.abs v * 2 ^ (- e).
Proof.
  intros Hnz Hv.
  assert (Hround : forall s p, Zpos p < 2 ^ 53 ->
            exists m e, binary_round prec emax s p 0 = S754_finite s m e /\ e <= 0 /\
                        Zpos m = Zpos p * 2 ^ (- e)).
  { intros s p Hp. unfold binary_round.
    pose proof (digits2_pos_le p 53 ltac:(lia) Hp) as Hd.
    assert (Hf : fexp prec emax (Zpos (digits2_pos p) + 0) = Zpos (digits2_pos p) - 53).
    { unfold fexp, emin, prec, emax. lia. }
    rewrite Hf. unfold shl_align.
    destruct (Zpos (digits2_pos p) - 53 - 0) as [|n|n] eqn:En; try lia.
    - exists p, 0. rewrite binary_round_aux_canonical by lia.
      repeat split; [lia|]. cbn. lia.
    - destruct (iter_xO_spec n p) as [Hval Hdig].
      exists (Pos.iter xO p n), (Zpos (digits2_pos p) - 53).
      rewrite binary_round_aux_canonical by (rewrite ?Hdig; lia).
      repeat split; [lia|]. rewrite Hval. f_equal. f_equal. lia. }
  destruct v as [|p|p]; [done| |]; cbn [of_Z binary_normalize Z.ltb Z.compare Z.abs] in *.
  - apply Hround. lia.
  - apply Hround. lia.
Qed.

Lemma fraction_inv d :
  fraction d -> exists m e, d = S754_finite false m e /\ e <= 0 /\ Zpos m < 2 ^ (- e).
Proof.
  intros (Hvalid & Hpos & Hlt).
  destruct d as [|[]| |[] m e]; try done.
  exists m, e. split; [done|].
  unfold lt, SFltb, c1, SFcompare in Hlt.
  cbn [valid_binary] in Hvalid. unfold bounded, canonical_mantissa in Hvalid.
  apply andb_prop in Hvalid as [Hcan _]. apply Z.eqb_eq in Hcan.
  pose proof (digits2_pos_gt m) as Hm.
  destruct (Z.compare_spec e (-52)) as [->|He|He]; try done.
  - destruct (PosDef.Pos.compare_cont Eq m 4503599627370496) eqn:Ec; [done| |done].
    split; [lia|exact Ec].
  - split; [lia|]. unfold fexp, emin, prec, emax in Hcan.
    assert (Hdig : Zpos (digits2_pos m) <= 53) by lia.
    eapply Z.lt_le_trans; [exact Hm|].
    apply Z.pow_le_mono_r; lia.
Qed.

(** With a damping strictly between 0 and 1 the second physics assignment
    moves a value toward zero or leaves it, and never past zero. *)
Lemma damp_toward_zero d v :
  fraction d -> int16 v ->
  (0 <= v -> 0 <= damp d v <= v) /\ (v <= 0 -> v <= damp d v <= 0).
Proof.
  intros Hd Hv.
  destruct (Z.eq_dec v 0) as [->|Hnz]; [rewrite damp_zero; lia|].
  destruct (fraction_inv d Hd) as (md & ed & -> & Hed & Hmd).
  assert (Hlt53 : Z.abs v < 2 ^ 53).
  { unfold int16 in Hv. change (2 ^ 53) with 9007199254740992. lia. }
  destruct (of_Z_exact v Hnz Hlt53) as (mv & ev & Hof & Hev & Hmv).
  unfold damp. rewrite Hof. unfold mul, SFmul. rewrite xorb_false_r.
  assert (Hpe : 0 < 2 ^ (- ev)) by (apply Z.pow_pos_nonneg; lia).
  assert (HM : Zpos (mv * md) < Z.abs v * 2 ^ (- (ev + ed))).
  { replace (- (ev + ed)) with (- ev + - ed) by lia.
    rewrite Z.pow_add_r, Pos2Z.inj_mul, Hmv by lia.
    rewrite Z.mul_assoc. apply Z.mul_lt_mono_pos_l; [|done]. lia. }
  pose proof (rounded_within (v <? 0) (mv * md) (ev + ed) (Z.abs v)) as Hw.
  unfold int16 in Hv. change (2 ^ 16) with 65536 in Hw.
  specialize (Hw ltac:(lia) ltac:(lia) HM).
  destruct (floor _) as [| |z]; cbn [to_int16 within] in *; [lia..|].
  destruct (Z.ltb_spec v 0); rewrite wrap16_id by (unfold int16; lia); lia.
Qed.

(** ** Decay *)

(** C8 (amended): with a damping strictly between 0 and 1 the damping
    assignment never increases the magnitude of the value it rewrites and
    never changes its sign, and grids at rest stay at rest over any number of
    propagations.  No bound on the interior values after 500 propagations
    follows from the damping alone. *)
Theorem damping_never_amplifies d :
  fraction d ->
  (forall v, int16 v ->
     Z.abs (damp d v) <= Z.abs v /\
     (0 <= v -> 0 <= damp d v) /\ (v <= 0 -> damp d v <= 0)) /\
  (forall w h n,
     propagations d w h n (zeros (w * h), zeros (w * h)) =
       (zeros (w * h), zeros (w * h))).
Proof.
  intros Hd. split.
  - intros v Hv. destruct (damp_toward_zero d v Hd Hv) as [Hpos Hneg]. lia.
  - intros w h n. unfold propagations.
    induction n as [|n IH]; [done|].
    rewrite Nat.iter_succ, IH. unfold swap_step. cbn [fst snd].
    by rewrite propagate_zeros.
Qed.

Lemma damping_never_amplifies_witness :
  Z.abs (damp c0_96 (-601)) <= Z.abs (-601).
Proof.
  refine (proj1 (proj1 (damping_never_amplifies c0_96 _) (-601) _)).
  - repeat split.
  - unfold int16. lia.
Defined.

(** C8 as worded fails on the code.  On a 3 by 3 grid with a zero border and
    600 in the centre, damping 0.99 leaves 61 in the centre of the current
    grid after 500 propagations.  With the default theme, after a drop has
    covered a 3 by 3 grid, border included, the centre of the current grid
    holds 599 after 501 frames: the border keeps the 600 it was given and
    keeps driving the interior. *)
Lemma decay_bound_fails :
  (fraction c0_99 /\
   propagations c0_99 3 3 500 (set (zeros 9) 4 600, zeros 9) =
     ([0; 0; 0; 0; 61; 0; 0; 0; 0], zeros 9)) /\
  (fraction (damping DEFAULT_CONFIG) /\
   Spec.interior 3 3 4 /\
   buffer1Ref (frames DEFAULT_CONFIG (replicate 501 (zeros 36)) soaked) =
     [0; 0; 0; 0; 599; 0; 0; 0; 0]).
Proof.
  split; split.
  - vm_compute. auto.
  - vm_compute. reflexivity.
  - vm_compute. auto.
  - split; [unfold Spec.interior; vm_compute; intuition discriminate|].
    vm_compute. reflexivity.
Qed.

(** ** Stores into the grids *)

(** C10: each of the two physics assignments stores its value reduced
    modulo 2^16 into [-32768, 32767], whatever the exact value was, and the
    drop stores the constant 600, which is its own reduction. *)
Theorem grid_stores_are_int16 d w b1 b2 i p :
  get b2 i = Some p ->
  let exact := halfSum b1 w i - p in
  let after1 := physics1 w b1 b2 i in
  let after2 := physics2 d after1 i in
  (get after1 i = Some (wrap16 exact) /\
   int16 (wrap16 exact) /\ (wrap16 exact - exact) mod 2 ^ 16 = 0) /\
  (exists v, get after2 i = Some v /\ int16 v /\
     forall z, floor (mul (of_Z (wrap16 exact)) d) = IInt z ->
               (v - z) mod 2 ^ 16 = 0) /\
  (forall pw ph pt k,
     get (inject pw ph pt b2) k = get b2 k \/
     get (inject pw ph pt b2) k = Some (wrap16 strength) /\ int16 (wrap16 strength)).
Proof.
  intros Hp. cbv zeta.
  assert (H1 : get (physics1 w b1 b2 i) i = Some (wrap16 (halfSum b1 w i - p))).
  { unfold physics1. rewrite Hp, get_set_eq, Hp. done. }
  repeat split.
  - done.
  - apply wrap16_int16.
  - apply wrap16_int16.
  - apply wrap16_congruent.
  - exists (damp d (wrap16 (halfSum b1 w i - p))). repeat split.
    + unfold physics2. rewrite H1, get_set_eq, H1. done.
    + apply damp_int16.
    + apply damp_int16.
    + intros z Hz. unfold damp. rewrite Hz. apply wrap16_congruent.
  - intros pw ph pt k. unfold inject.
    destruct (active pt && (0 <? pw)); [|by left].
    destruct (floor (mul (px pt) (of_Z pw))); try (by left).
    destruct (floor (mul (py pt) (of_Z ph))); try (by left).
    rewrite get_inject_at. destruct (drop_covers _ _ _ _ _); [|by left].
    destruct (get b2 k); [right|by left].
    split; [done|apply wrap16_int16].
Qed.

Lemma grid_stores_are_int16_witness :
  let b1 := [0; 32767; 0; 32767; 0; 32767; 0; 32767; 0] in
  let b2 := [0; 0; 0; 0; -32768; 0; 0; 0; 0] in
  halfSum b1 3 4 - -32768 = 98302 /\
  get (physics1 3 b1 b2 4) 4 = Some 32766.
Proof.
  intros b1 b2. split; [reflexivity|].
  refine (proj1 (proj1 (grid_stores_are_int16 c0_5 3 b1 b2 4 (-32768) _))).
  reflexivity.
Defined.

(** ** Invariants of the grids *)

Lemma get_of_nat (a : list Z) n : get a (Z.of_nat n) = a !! n.
Proof.
  unfold get. destruct (Z.ltb_spec (Z.of_nat n) 0); [lia|]. by rewrite Nat2Z.id.
Qed.

Lemma Forall_get (P : Z -> Prop) a :
  Forall P a <-> forall k v, get a k = Some v -> P v.
Proof.
  rewrite Forall_lookup. split.
  - intros H k v. unfold get. destruct (k <? 0); [done|]. apply H.
  - intros H n v Hn. apply (H (Z.of_nat n)). by rewrite get_of_nat.
Qed.

Lemma Forall_set (P : Z -> Prop) a k v : Forall P a -> P v -> Forall P (set a k v).
Proof.
  intros Ha Hv. unfold set. destruct (k <? 0); [done|]. by apply Forall_insert.
Qed.

Lemma Forall_zeros (P : Z -> Prop) n : P 0 -> Forall P (zeros n).
Proof. intros H. unfold zeros. by apply Forall_replicate. Qed.

Lemma propagate_int16 d w h b1 b2 :
  Forall int16 b2 -> Forall int16 (propagate d w h b1 b2).
Proof.
  rewrite !Forall_get. intros H k v. rewrite get_propagate.
  case_decide; [|apply H].
  destruct (get b2 k) as [p|]; [|done]. cbn. intros [= <-]. apply damp_int16.
Qed.

Lemma inject_cases w h p b k :
  get (inject w h p b) k = get b k \/
  get (inject w h p b) k = Some 600 /\ exists v, get b k = Some v.
Proof.
  unfold inject. destruct (active p && (0 <? w)); [|by left].
  destruct (floor (mul (px p) (of_Z w))); try (by left).
  destruct (floor (mul (py p) (of_Z h))); try (by left).
  rewrite get_inject_at. destruct (drop_covers _ _ _ _ _); [|by left].
  destruct (get b k) as [v|]; [right|by left]. eauto.
Qed.

Lemma inject_int16 w h p b : Forall int16 b -> Forall int16 (inject w h p b).
Proof.
  rewrite !Forall_get. intros H k v Hv.
  destruct (inject_cases w h p b k) as [Hk|[Hk _]]; rewrite Hk in Hv.
  - by eapply H.
  - injection Hv as <-. unfold int16. lia.
Qed.

Lemma size_inject w h p b : size (inject w h p b) = size b.
Proof.
  unfold inject. destruct (active p && (0 <? w)); [|done].
  destruct (floor (mul (px p) (of_Z w))); try done.
  destruct (floor (mul (py p) (of_Z h))); try done.
  apply size_inject_at.
Qed.

Lemma handleResize_grids_ok w h c : 0 <= w -> 0 <= h -> grids_ok (handleResize w h c).
Proof.
  intros Hw Hh. unfold grids_ok, handleResize. cbn.
  rewrite !size_zeros by nia.
  repeat split; try done; apply Forall_zeros; unfold int16; lia.
Qed.

Lemma interact_grids_ok p c : grids_ok c -> grids_ok (interact p c).
Proof.
  unfold grids_ok, interact. destruct (dimensionsRef c) as [w h] eqn:Hd.
  cbn [dimensionsRef buffer1Ref buffer2Ref fst snd].
  intros (Hw & Hh & H1 & H2 & I1 & I2).
  rewrite size_inject. repeat split; try done. by apply inject_int16.
Qed.

Lemma renderloop_grids_ok cfg texture c : grids_ok c -> grids_ok (renderloop cfg texture c).
Proof.
  intros Hok. pose proof Hok as (Hw & Hh & H1 & H2 & I1 & I2).
  unfold renderloop. destruct (dimensionsRef c) as [w h] eqn:Hd. cbn [fst snd] in *.
  destruct ((w =? 0) || (h =? 0)); [done|].
  unfold grids_ok. cbn [dimensionsRef buffer1Ref buffer2Ref fst snd].
  rewrite buffer2_pixel_loop, buffer1_pixel_loop. cbn [buffer1 buffer2].
  rewrite size_propagate. repeat split; try done. by apply propagate_int16.
Qed.

Lemma handle_grids_ok c e : canvas_sized e -> grids_ok c -> grids_ok (handle c e).
Proof.
  destruct e as [w h|p|cfg texture]; cbn [handle canvas_sized].
  - intros [Hw Hh] _. by apply handleResize_grids_ok.
  - intros _. apply interact_grids_ok.
  - intros _. apply renderloop_grids_ok.
Qed.

(** X2: over any sequence of resizes to canvas sizes, interactions and
    frames, both grids keep exactly one cell per pixel of the current
    dimensions and every cell stays a signed 16-bit value. *)
Theorem run_grids_ok events : forall c,
  Forall canvas_sized events -> grids_ok c -> grids_ok (run events c).
Proof.
  unfold run. induction events as [|e events IH]; intros c Hev Hc; cbn [foldl]; [done|].
  apply Forall_cons in Hev as [He Hev]. apply IH; [done|]. by apply handle_grids_ok.
Qed.

(** ** Invariants of the output image *)

Lemma to_uint8_clamp_uint8 a : uint8 (to_uint8_clamp a).
Proof.
  unfold uint8. destruct a as [s|s| |s m e]; cbn [to_uint8_clamp]; try lia.
  - destruct s; lia.
  - destruct s; [lia|]. destruct (Z.leb_spec 0 e) as [He|He].
    + pose proof (proj2 (Z.shiftl_nonneg (Zpos m) e) ltac:(lia)). lia.
    + assert (Hd : 0 < 2 ^ (- e)) by (apply Z.pow_pos_nonneg; lia).
      pose proof (Z.div_pos (Zpos m) (2 ^ (- e)) ltac:(lia) Hd).
      destruct (2 * _ ?= _); try destruct (Z.even _); lia.
Qed.

Lemma put_uint8 o k v : Forall uint8 o -> Forall uint8 (put o k v).
Proof. intros H. apply Forall_set; [done|]. apply to_uint8_clamp_uint8. Qed.

Lemma update_uint8 o k f : Forall uint8 o -> Forall uint8 (update o k f).
Proof. intros H. unfold update. destruct (get o k); [by apply put_uint8|done]. Qed.

Lemma render_pixel_uint8 cfg w h texture st i :
  Forall uint8 (output st) -> Forall uint8 (output (render_pixel cfg w h texture st i)).
Proof.
  intros H. unfold render_pixel, tint, specular, copy_texel. cbn [output].
  repeat match goal with
         | |- Forall uint8 (if ?c then _ else _) => destruct c
         | |- Forall uint8 (match ?c with Some _ => _ | None => _ end) => destruct c
         | |- Forall uint8 (update _ _ _) => apply update_uint8
         | |- Forall uint8 (put _ _ _) => apply put_uint8
         end; done.
Qed.

Lemma foldl_pixel_uint8 cfg w h texture l : forall st,
  Forall uint8 (output st) ->
  Forall uint8 (output (foldl (pixel cfg w h texture) st l)).
Proof.
  induction l as [|i l IH]; intros st H; cbn [foldl]; [done|].
  apply IH. unfold pixel. by apply render_pixel_uint8.
Qed.

(** The highlight and the tint leave the alpha channel alone. *)
Lemma render_pixel_alpha cfg w h texture st i :
  0 <= 4 * i + 3 < size (output st) ->
  get (output (render_pixel cfg w h texture st i)) (4 * i + 3) = Some 255.
Proof.
  intros Hi. unfold render_pixel, tint, specular, copy_texel. cbn [output].
  set (l := locals _ _ _ _ _).
  assert (Ht : targetIdx l = i * 4) by done.
  assert (Hup : forall o k f, k <> 4 * i + 3 ->
            get (update o k f) (4 * i + 3) = get o (4 * i + 3)).
  { intros o k f Hk. rewrite get_update. by rewrite decide_False. }
  repeat match goal with
         | |- get (if ?c then _ else _) _ = _ => destruct c
         | |- get (match ?c with Some _ => _ | None => _ end) _ = _ => destruct c
         | |- get (update _ _ _) _ = _ => rewrite Hup by lia
         end.
  all: rewrite Ht, get_put, decide_True by lia.
  all: destruct (get_Some (put (put (put (output st) (i * 4) (texel texture (sourceIdx l) 0))
                                    (i * 4 + 1) (texel texture (sourceIdx l) 1))
                               (i * 4 + 2) (texel texture (sourceIdx l) 2))
                          (i * 4 + 3)) as [v Hv];
    [rewrite !size_put; lia|rewrite Hv; done].
Qed.

Lemma pixel_loop_alpha cfg w h texture st i :
  0 <= w -> visited w h i -> size (output st) = 4 * w * h ->
  get (output (pixel_loop cfg w h texture st)) (4 * i + 3) = Some 255.
Proof.
  intros Hw Hi Hs. pose proof Hi as [Hlo Hhi].
  rewrite (pixel_loop_channels cfg w h texture st i) by (done || unfold channels; lia).
  apply render_pixel_alpha. rewrite size_output_rendering_state. nia.
Qed.

Lemma pixel_loop_unvisited cfg w h texture st k :
  (forall i, visited w h i -> ~ channels i k) ->
  get (output (pixel_loop cfg w h texture st)) k = get (output st) k.
Proof.
  intros Hk. apply foldl_pixel_outside.
  apply Forall_forall. intros j Hj. apply Hk. by apply elem_of_loop_indices.
Qed.

Lemma renderloop_output_ok cfg texture c :
  grids_ok c -> output_ok c -> output_ok (renderloop cfg texture c).
Proof.
  intros (Hw & Hh & _) Hout. unfold renderloop.
  destruct (dimensionsRef c) as [w h]. cbn [fst snd] in *.
  destruct ((w =? 0) || (h =? 0)); [done|].
  set (outputImage := match imageDataBufferRef c with
                      | Some im => if (width im =? w) && (height im =? h) then im
                                   else createImageData w h
                      | None => createImageData w h
                      end).
  assert (Hpre : width outputImage = w /\ height outputImage = h /\
                 size (data outputImage) = 4 * w * h /\
                 Forall uint8 (data outputImage) /\
                 forall k, 0 <= k < 4 * w * h ->
                   (forall i, visited w h i -> ~ channels i k) ->
                   get (data outputImage) k = Some 0).
  { assert (Hfresh : size (data (createImageData w h)) = 4 * w * h /\
                     Forall uint8 (data (createImageData w h)) /\
                     forall k, 0 <= k < 4 * w * h -> get (data (createImageData w h)) k = Some 0).
    { cbn [createImageData data]. rewrite size_zeros by nia.
      repeat split; [apply Forall_zeros; unfold uint8; lia|].
      intros k Hk. by apply get_zeros. }
    destruct Hfresh as (F1 & F2 & F3). unfold outputImage.
    destruct (imageDataBufferRef c) as [im|] eqn:Him.
    - destruct (Z.eqb_spec (width im) w) as [Ew|]; cbn [andb];
        [destruct (Z.eqb_spec (height im) h) as [Eh|]|]; try (by repeat split; auto).
      destruct (Hout im Him) as (_ & _ & Hs & Hu & _ & Hz).
      rewrite Ew, Eh in *. repeat split; try done.
      intros k Hk. apply Hz. lia.
    - repeat split; auto. }
  destruct Hpre as (Ew & Eh & Hs & Hu & Hz).
  intros im. cbn [imageDataBufferRef]. intros [= <-].
  unfold image_ok. cbn [width height data]. rewrite Ew, Eh.
  assert (Hsize : size (output (pixel_loop cfg w h texture
                    {| buffer1 := buffer1Ref c; buffer2 := buffer2Ref c;
                       output := data outputImage |})) = 4 * w * h).
  { unfold pixel_loop. by rewrite size_output_foldl_pixel. }
  repeat split; try done.
  - by apply foldl_pixel_uint8.
  - intros i Hi. by apply pixel_loop_alpha.
  - intros k Hk Hnv. rewrite pixel_loop_unvisited by done. cbn [output].
    apply Hz; [lia|done].
Qed.

Lemma handle_output_ok c e :
  grids_ok c -> output_ok c -> output_ok (handle c e).
Proof.
  intros Hg Ho. destruct e as [w h|p|cfg texture]; cbn [handle].
  - exact Ho.
  - unfold interact. by destruct (dimensionsRef c).
  - by apply renderloop_output_ok.
Qed.

(** X3: over any sequence of resizes, interactions and frames, the output
    image, once a frame has made one, has four bytes per pixel, each in
    [0, 255]; every pixel the loop visits is opaque (alpha 255) and every
    other pixel, the border rows among them, is still transparent black. *)
Theorem run_output_ok events : forall c,
  Forall canvas_sized events -> grids_ok c -> output_ok c -> output_ok (run events c).
Proof.
  unfold run. induction events as [|e events IH]; intros c Hev Hg Ho; cbn [foldl]; [done|].
  apply Forall_cons in Hev as [He Hev].
  apply IH; [done|by apply handle_grids_ok|by apply handle_output_ok].
Qed.

(** ** The drop on any grid *)

Lemma drop_stores_spec w h x y k j i :
  drop_stores w h x y k j i = true <->
  0 <= i < w /\ 0 <= j < h /\ (i - x) * (i - x) + (j - y) * (j - y) < 16 /\ k = j * w + i.
Proof.
  unfold drop_stores, radius. rewrite !andb_true_iff.
  rewrite !Z.leb_le, !Z.ltb_lt, Z.eqb_eq. change (4 * 4) with 16. tauto.
Qed.

Lemma drop_covers_spec w h x y k :
  0 < w ->
  drop_covers w h x y k = true <->
  0 <= k < w * h /\ (k mod w - x) ^ 2 + (k / w - y) ^ 2 < 16.
Proof.
  intros Hw. unfold drop_covers. rewrite existsb_exists. split.
  - intros (j & _ & Hj). apply existsb_exists in Hj as (i & _ & Hi).
    apply drop_stores_spec in Hi as (Hi & Hj & Hd & ->).
    assert (Hmod : (j * w + i) mod w = i).
    { rewrite Z.add_comm, Z.mod_add by lia. apply Z.mod_small. lia. }
    assert (Hdiv : (j * w + i) / w = j).
    { rewrite Z.add_comm, Z.div_add by lia. rewrite Z.div_small by lia. lia. }
    rewrite Hmod, Hdiv. split; nia.
  - intros [Hk Hd].
    pose proof (Z.mod_pos_bound k w Hw) as Hi.
    pose proof (Z.div_mod k w ltac:(lia)) as Hkm.
    assert (Hj : 0 <= k / w < h).
    { split; [apply Z.div_pos; lia|apply Z.div_lt_upper_bound; lia]. }
    exists (k / w). unfold radius. split.
    + apply list_elem_of_In, elem_of_seqZ. nia.
    + apply existsb_exists. exists (k mod w). split.
      * apply list_elem_of_In, elem_of_seqZ. nia.
      * apply drop_stores_spec. repeat split; lia || nia.
Qed.

(** X1: on a grid of any size, a drop whose centre floors to pixel
    [(x, y)] overwrites with 600 exactly the cells whose column [k mod w] and
    row [k / w] are at squared distance below 16 from the centre, and leaves
    every other cell as it was; it never wraps around a row end. *)
Theorem injection_disc w h p grid x y k :
  active p = true -> 0 < w ->
  floor (mul (px p) (of_Z w)) = IInt x ->
  floor (mul (py p) (of_Z h)) = IInt y ->
  size grid = w * h -> 0 <= k < w * h ->
  size (inject w h p grid) = w * h /\
  get (inject w h p grid) k =
    if (k mod w - x) ^ 2 + (k / w - y) ^ 2 <? 16 then Some 600 else get grid k.
Proof.
  intros Ha Hw Hx Hy Hs Hk. rewrite size_inject. split; [done|].
  unfold inject. rewrite Ha, Hx, Hy.
  destruct (Z.ltb_spec 0 w); [|lia]. cbn [andb].
  rewrite get_inject_at.
  pose proof (drop_covers_spec w h x y k Hw) as Hc.
  destruct (Z.ltb_spec ((k mod w - x) ^ 2 + (k / w - y) ^ 2) 16) as [Hd|Hd].
  - rewrite (proj2 Hc) by done. by rewrite (get_cell grid k) by lia.
  - destruct (drop_covers w h x y k); [|done].
    destruct (proj1 Hc eq_refl). lia.
Qed.

(** ** Sampling stays inside the texture *)

Lemma clamp_range s n :
  0 < n ->
  match clamp s n with
  | IInt z => 0 <= z < n
  | INaN => s = INaN
  | IInf _ => False
  end.
Proof.
  intros Hn. unfold clamp. destruct s as [|[]|z]; cbn [int_ltb int_geb negb].
  - done.
  - destruct (Z.leb_spec n 0); lia.
  - lia.
  - destruct (Z.ltb_spec z 0); cbn [int_geb].
    + destruct (Z.leb_spec n 0); lia.
    + destruct (Z.leb_spec n z); lia.
Qed.

(** X4: whatever the grid, the pixel and the shimmer (large or infinite
    displacements included), a sample index that is a number addresses a
    whole pixel inside the texture: the three texel reads never leave it. *)
Theorem sampling_in_bounds sh w h b2 i texture k :
  0 < w -> 0 < h -> size texture = 4 * w * h ->
  sourceIdx (locals sh w h b2 i) = Some k ->
  0 <= k /\ k + 3 < 4 * w * h /\ k mod 4 = 0 /\
  forall c, 0 <= c < 4 -> exists v, get texture (k + c) = Some v.
Proof.
  intros Hw Hh Hs. unfold locals. cbn [sourceIdx].
  pose proof (clamp_range (int_add (i / w) (distortion sh
     (cell_diff (get b2 (i - w)) (get b2 (i + w))))) h Hh) as Hy.
  pose proof (clamp_range (int_add (Z.rem i w) (distortion sh
     (cell_diff (get b2 (i - 1)) (get b2 (i + 1))))) w Hw) as Hx.
  destruct (clamp _ h) as [| |y]; try done.
  destruct (clamp _ w) as [| |x]; try done.
  intros [= <-].
  assert (0 <= y * w + x < w * h) by nia.
  repeat split; try lia.
  - rewrite Z.mod_mul; lia.
  - intros c Hc. apply get_Some. lia.
Qed.

(** ** Rest *)

Lemma renderloop_at_rest cfg texture c w h :
  dimensionsRef c = (w, h) ->
  buffer1Ref c = zeros (w * h) -> buffer2Ref c = zeros (w * h) ->
  let c' := renderloop cfg texture c in
  dimensionsRef c' = (w, h) /\
  buffer1Ref c' = zeros (w * h) /\ buffer2Ref c' = zeros (w * h).
Proof.
  intros Hd H1 H2. cbv zeta. unfold renderloop. rewrite Hd.
  destruct ((w =? 0) || (h =? 0)); [done|].
  cbn [dimensionsRef buffer1Ref buffer2Ref].
  rewrite buffer2_pixel_loop, buffer1_pixel_loop. cbn [buffer1 buffer2].
  by rewrite H1, H2, propagate_zeros.
Qed.

(** X5: a component whose grids are at rest stays at rest over any number
    of frames, whatever the themes and textures: both grids remain all zero
    and the dimensions are kept. *)
Theorem run_at_rest events : forall c w h,
  Forall is_frame events ->
  dimensionsRef c = (w, h) ->
  buffer1Ref c = zeros (w * h) -> buffer2Ref c = zeros (w * h) ->
  let c' := run events c in
  dimensionsRef c' = (w, h) /\
  buffer1Ref c' = zeros (w * h) /\ buffer2Ref c' = zeros (w * h).
Proof.
  unfold run. induction events as [|e events IH]; intros c w h Hev Hd H1 H2;
    cbn [foldl]; [done|].
  apply Forall_cons in Hev as [He Hev].
  destruct e as [| |cfg texture]; try done. cbn [handle].
  destruct (renderloop_at_rest cfg texture c w h Hd H1 H2) as (Hd' & H1' & H2').
  by apply IH.
Qed.

(** X6: a disturbance travels at most one cell per frame: a cell at rest
    whose four neighbours in the current grid are at rest is still at rest
    after the propagation, for every damping. *)
Theorem propagate_rest_cell d w h b1 b2 i :
  get b1 (i - 1) = Some 0 -> get b1 (i + 1) = Some 0 ->
  get b1 (i - w) = Some 0 -> get b1 (i + w) = Some 0 ->
  get b2 i = Some 0 ->
  get (propagate d w h b1 b2) i = Some 0.
Proof.
  intros Ha Hb Hc He Hp. rewrite get_propagate, Hp.
  case_decide; [|done]. cbn. f_equal.
  unfold next_cell, halfSum. rewrite Ha, Hb, Hc, He. apply damp_zero.
Qed.

(** ** Grids too small to have a visited cell *)

Lemma loop_indices_thin w h : 0 <= w -> h <= 2 -> loop_indices w h = [].
Proof. intros Hw Hh. unfold loop_indices. apply seqZ_nil. nia. Qed.

(** ** A black highlight *)

Lemma set_same a k v : get a k = Some v -> set a k v = a.
Proof.
  unfold get, set. destruct (k <? 0); [done|]. apply list_insert_id.
Qed.

Lemma of_Z_positive n :
  0 < n < 2 ^ 53 -> exists m e, of_Z n = S754_finite false m e.
Proof.
  intros Hn. destruct (of_Z_exact n) as (m & e & Hof & _); [lia..|].
  exists m, e. rewrite Hof. by destruct (Z.ltb_spec n 0); [lia|].
Qed.

Lemma boost_black cur s :
  uint8 cur -> 10 < s ->
  to_uint8_clamp
    (min c255 (add (of_Z cur) (mul (of_Z (Z.min 255 (s * 2))) (div (of_Z 0) c255)))) = cur.
Proof.
  intros Hc Hs.
  destruct (of_Z_positive (Z.min 255 (s * 2))) as (m & e & ->).
  { change (2 ^ 53) with 9007199254740992. lia. }
  change (mul (S754_finite false m e) (div (of_Z 0) c255)) with (S754_zero false).
  assert (Hall : forallb (fun v => to_uint8_clamp (min c255 (add (of_Z v) (S754_zero false))) =? v)
                         (seqZ 0 256) = true) by (vm_compute; reflexivity).
  rewrite forallb_forall in Hall.
  apply Z.eqb_eq, Hall, list_elem_of_In, elem_of_seqZ. unfold uint8 in Hc. lia.
Qed.

Lemma specular_black l out :
  Forall uint8 out -> specular Color.black l out = out.
Proof.
  intros Hu. unfold specular. destruct (shading l) as [s|]; [|done].
  destruct (Z.ltb_spec 10 s) as [Hs|]; [|done].
  assert (Hup : forall o k, Forall uint8 o ->
            update o k (fun cur => min c255 (add cur
              (mul (of_Z (Z.min 255 (s * 2))) (div (of_Z 0) c255)))) = o).
  { intros o k Ho. unfold update. destruct (get o k) as [cur|] eqn:E; [|done].
    assert (Hcur : uint8 cur) by (by apply (proj1 (Forall_get uint8 o) Ho k)).
    unfold put. rewrite (boost_black cur s Hcur Hs). by apply set_same. }
  cbn [Color.r Color.g Color.b Color.black]. by rewrite !(Hup out).
Qed.

(** ** Colours are bytes *)

Lemma hex_digit_range c v : Color.hex_digit c = Some v -> 0 <= v <= 15.
Proof.
  unfold Color.hex_digit.
  repeat match goal with
         | |- context [?a <=? ?b] => destruct (Z.leb_spec a b)
         end; cbn [andb]; intros [= <-]; lia.
Qed.

Lemma parse_pair_range c1 c2 v : Color.parse_pair c1 c2 = Some v -> 0 <= v <= 255.
Proof.
  unfold Color.parse_pair.
  destruct (Color.hex_digit c1) eqn:E1; [|done].
  destruct (Color.hex_digit c2) eqn:E2; [|done].
  apply hex_digit_range in E1, E2. intros [= <-]. lia.
Qed.

Lemma groups_range s c :
  Color.groups s = Some c ->
  uint8 (Color.r c) /\ uint8 (Color.g c) /\ uint8 (Color.b c).
Proof.
  unfold Color.groups.
  destruct s as [|c1 [|c2 [|c3 [|c4 [|c5 [|c6 [|]]]]]]]; try done.
  destruct (Color.parse_pair c1 c2) eqn:E1; [|done].
  destruct (Color.parse_pair c3 c4) eqn:E2; [|done].
  destruct (Color.parse_pair c5 c6) eqn:E3; [|done].
  apply parse_pair_range in E1, E2, E3. intros [= <-]. done.
Qed.

Lemma groups_hash s : Color.groups (String "#" s) = None.
Proof.
  unfold Color.groups. destruct s as [|c2 [|c3 [|c4 [|c5 [|c6 [|]]]]]]; try done.
Qed.

Lemma run_grids_ok_witness :
  grids_ok (run [Resize 4 4;
                 Interact {| px := c0_5; py := c0_5; active := true |};
                 Frame DEFAULT_CONFIG (zeros 64);
                 Resize 3 5;
                 Frame DEFAULT_CONFIG (zeros 60)] mounted).
Proof.
  refine (run_grids_ok _ mounted _ _).
  - repeat constructor; lia.
  - unfold grids_ok, size. cbn. repeat split; try lia; constructor.
Defined.

Lemma run_output_ok_witness :
  output_ok (run [Resize 4 4;
                  Interact {| px := c0_5; py := c0_5; active := true |};
                  Frame DEFAULT_CONFIG (zeros 64);
                  Resize 3 5;
                  Frame DEFAULT_CONFIG (zeros 60)] mounted).
Proof.
  refine (run_output_ok _ mounted _ _ _).
  - repeat constructor; lia.
  - unfold grids_ok, size. cbn. repeat split; try lia; constructor.
  - intros im Him. discriminate Him.
Defined.

Lemma injection_disc_witness :
  get (inject 7 5 {| px := c0_5; py := c0_5; active := true |} (zeros 35)) 6 = Some 600.
Proof.
  refine (proj2 (injection_disc 7 5 {| px := c0_5; py := c0_5; active := true |}
                   (zeros 35) 3 2 6 _ _ _ _ _ _)).
  - reflexivity.
  - lia.
  - reflexivity.
  - reflexivity.
  - reflexivity.
  - lia.
Defined.

Lemma sampling_in_bounds_witness :
  0 <= 32 /\ 32 + 3 < 4 * 3 * 3 /\ 32 mod 4 = 0 /\
  forall c, 0 <= c < 4 -> exists v, get (zeros 36) (32 + c) = Some v.
Proof.
  refine (sampling_in_bounds (S754_infinity false) 3 3
            [0; 5; 0; 700; 0; 0; 0; 0; 0] 4 (zeros 36) 32 _ _ _ _).
  - lia.
  - lia.
  - reflexivity.
  - reflexivity.
Defined.

Lemma run_at_rest_witness :
  let c' := run [Frame DEFAULT_CONFIG (zeros 64); Frame DEFAULT_CONFIG (zeros 64)]
                (handleResize 4 4 mounted) in
  dimensionsRef c' = (4, 4) /\
  buffer1Ref c' = zeros (4 * 4) /\ buffer2Ref c' = zeros (4 * 4).
Proof.
  refine (run_at_rest _ (handleResize 4 4 mounted) 4 4 _ _ _ _).
  - repeat constructor.
  - reflexivity.
  - reflexivity.
  - reflexivity.
Defined.

Lemma propagate_rest_cell_witness :
  get (propagate c0_96 4 4
         [600; 600; 600; 600; 0; 0; 0; 0; 0; 0; 0; 0; 0; 0; 0; 0]
         (zeros 16)) 9 = Some 0.
Proof.
  refine (propagate_rest_cell c0_96 4 4 _ (zeros 16) 9 _ _ _ _ _); reflexivity.
Defined.

(** X7: a frame on a grid of at most two rows visits no cell: it changes no
    amplitude and only exchanges the two grids; a frame on a component with a
    zero dimension changes nothing at all, the exchange included. *)
Theorem thin_grid_only_swaps cfg texture c w h :
  dimensionsRef c = (w, h) -> 0 <= w -> h <= 2 ->
  let c' := renderloop cfg texture c in
  (w = 0 \/ h = 0 -> c' = c) /\
  (w <> 0 -> h <> 0 ->
   buffer1Ref c' = buffer2Ref c /\ buffer2Ref c' = buffer1Ref c).
Proof.
  intros Hd Hw Hh. cbv zeta. unfold renderloop. rewrite Hd. split.
  - intros [->| ->]; [done|]. by rewrite orb_true_r.
  - intros Hw0 Hh0.
    destruct (Z.eqb_spec w 0); [done|]. destruct (Z.eqb_spec h 0); [done|].
    cbn [orb buffer1Ref buffer2Ref].
    unfold pixel_loop. rewrite loop_indices_thin by done. done.
Qed.

Lemma thin_grid_only_swaps_witness :
  let c := interact {| px := c0_5; py := c0_5; active := true |}
             (handleResize 5 2 mounted) in
  let c' := renderloop DEFAULT_CONFIG (zeros 40) c in
  buffer1Ref c' = buffer2Ref c /\ buffer2Ref c' = buffer1Ref c.
Proof.
  intros c.
  refine (proj2 (thin_grid_only_swaps DEFAULT_CONFIG (zeros 40) c 5 2 _ _ _) _ _).
  - reflexivity.
  - lia.
  - lia.
  - lia.
  - lia.
Defined.

(** X8: when the highlight colour of the theme does not parse, the specular
    step adds nothing: it leaves every byte of the output as it was, however
    steep the slope. *)
Theorem unparsed_highlight_adds_nothing cfg l out :
  Spec.hex_colour (highlightColor cfg) = false ->
  Forall uint8 out ->
  specular (Color.hexToRgb (highlightColor cfg)) l out = out.
Proof.
  intros Hc Hu.
  assert (Hblack : Color.hexToRgb (highlightColor cfg) = Color.black).
  { unfold Color.hexToRgb. destruct (Color.exec (highlightColor cfg)) eqn:E; [|done].
    apply exec_hex in E. congruence. }
  rewrite Hblack. by apply specular_black.
Qed.

Lemma unparsed_highlight_adds_nothing_witness :
  let cfg := {| damping := c0_96; shimmer := c5;
                baseColor := "#000000"; highlightColor := "cyan" |} in
  let l := locals c5 3 3 [0; 0; 0; 900; 0; 0; 0; 0; 0] 4 in
  specular (Color.hexToRgb (highlightColor cfg)) l (replicate 36 100) = replicate 36 100.
Proof.
  intros cfg l. refine (unparsed_highlight_adds_nothing cfg l (replicate 36 100) _ _).
  - reflexivity.
  - apply Forall_replicate. unfold uint8. lia.
Defined.

(** X9: whatever the string, the three channels [hexToRgb] returns are
    bytes. *)
Theorem hexToRgb_bytes s :
  uint8 (Color.r (Color.hexToRgb s)) /\
  uint8 (Color.g (Color.hexToRgb s)) /\
  uint8 (Color.b (Color.hexToRgb s)).
Proof.
  unfold Color.hexToRgb.
  destruct (Color.exec s) as [c|] eqn:E; [|cbn; unfold uint8; lia].
  unfold Color.exec in E. destruct s as [|a s']; [done|].
  assert (Hg : Color.groups s' = Some c \/ Color.groups (String a s') = Some c).
  { destruct a as [[] [] [] [] [] [] [] []]; try (by right).
    destruct (Color.groups s'); [left|right]; done. }
  destruct Hg as [Hg|Hg]; by apply groups_range in Hg.
Qed.

(** X10: the leading [#] is optional: a string that does not itself begin
    with [#] parses to the same colour with and without one in front. *)
Theorem hexToRgb_hash_optional s :
  (forall t, s <> String "#" t) ->
  Color.hexToRgb (String "#" s) = Color.hexToRgb s.
Proof.
  intros Hs. unfold Color.hexToRgb. f_equal.
  assert (He : Color.exec s = Color.groups s).
  { unfold Color.exec. destruct s as [|a s']; [done|].
    destruct (Ascii.eqb_spec a "#"%char) as [->|Hne]; [by destruct (Hs s')|].
    destruct a as [[] [] [] [] [] [] [] []]; done. }
  rewrite He. cbn [Color.exec]. rewrite groups_hash. by destruct (Color.groups s).
Qed.

Lemma hexToRgb_hash_optional_witness :
  Color.hexToRgb "#00d2ff" = Color.hexToRgb "00d2ff".
Proof.
  refine (hexToRgb_hash_optional "00d2ff" _). intros t Ht. discriminate Ht.
Defined.

(** X11: a damping that is not a finite number (NaN or an infinity) makes
    the second physics assignment store 0 whatever the cell held, so one
    propagation flattens every visited cell. *)
Theorem unbounded_damping_flattens d w h b1 b2 i :
  is_finite d = false -> visited w h i -> 0 <= i < size b2 ->
  (forall v, damp d v = 0) /\
  get (propagate d w h b1 b2) i = Some 0.
Proof.
  intros Hd Hi Hs.
  assert (Hdamp : forall v, damp d v = 0).
  { intros v. unfold damp, mul. destruct d as [| | |]; try done;
      destruct (of_Z v) as [| | |]; done. }
  split; [done|].
  rewrite get_propagate, decide_True by done.
  rewrite (get_cell b2 i) by done. cbn. unfold next_cell. by rewrite Hdamp.
Qed.

Lemma unbounded_damping_flattens_witness :
  get (propagate S754_nan 3 3 (replicate 9 600) (replicate 9 7)) 4 = Some 0.
Proof.
  refine (proj2 (unbounded_damping_flattens S754_nan 3 3 (replicate 9 600)
                   (replicate 9 7) 4 _ _ _)).
  - reflexivity.
  - unfold visited. lia.
  - unfold size. cbn. lia.
Defined.
